(** * x_to_slack: the tweet processing pipeline, the query builder, the
      retrying search client and the daily job, embedded shallowly.

    Sources embedded here:
    - [src/services/tweet-processor.ts]  (module [Processor])
    - [src/utils/query-builder.ts]       (module [QueryBuilder])
    - [src/services/x-client.ts]         (module [Client])
    - [src/config.ts], [src/index.ts]    (modules [Config], [Job])

    Conventions.  A JavaScript string is the list of its UTF-16 code units
    ([list N]); [String.length] is [length], [slice(0,n)] is [take n].
    JavaScript numbers that the program uses as counts and status codes
    are integers ([Z]).  A [Map<string,_>] is a [gmap], a [Set<string>] a
    [gset].  Code that throws returns a sum; code that talks to the
    network runs in a small state-and-exception monad over a script of
    network outcomes.  Calls to the logger are left out: they return
    nothing and no branch depends on them. *)

From Stdlib Require Import ZArith NArith List String Ascii Lia.
From stdpp Require Import base decidable option numbers list gmap sets sorting.

Local Open Scope Z_scope.

(* ------------------------------------------------------------------ *)
(** ** JavaScript strings *)

Module JsString.

Abbreviation jsstring := (list N).

(** Code units of an ASCII literal, for writing the program's string
    constants. *)
Fixpoint str (s : string) : jsstring :=
  match s with
  | EmptyString => []
  | String a s' => N_of_ascii a :: str s'
  end.

Definition SPACE : N := 32.
Definition DQUOTE : N := 34.

(** ECMAScript WhiteSpace and LineTerminator code points: what
    [String.prototype.trim] strips. *)
Definition is_whitespace (c : N) : bool :=
  ((9 <=? c) && (c <=? 13) || (c =? 32) || (c =? 160) || (c =? 5760)
   || (8192 <=? c) && (c <=? 8202) || (c =? 8232) || (c =? 8233)
   || (c =? 8239) || (c =? 8287) || (c =? 12288) || (c =? 65279))%N.

Fixpoint trimStart (s : jsstring) : jsstring :=
  match s with
  | [] => []
  | c :: s' => if is_whitespace c then trimStart s' else s
  end.

Definition trimEnd (s : jsstring) : jsstring := rev (trimStart (rev s)).

Definition trim (s : jsstring) : jsstring := trimEnd (trimStart s).

(** [arr.join(sep)] *)
Fixpoint join (sep : jsstring) (parts : list jsstring) : jsstring :=
  match parts with
  | [] => []
  | [p] => p
  | p :: rest => p ++ sep ++ join sep rest
  end.

(** [arr.slice(0, e)] for an integer [e]: a negative end counts from
    the end of the array. *)
Definition slice0 {A} (l : list A) (e : Z) : list A :=
  let len := Z.of_nat (length l) in
  let final := if e <? 0 then Z.max (len + e) 0 else Z.min e len in
  take (Z.to_nat final) l.

(** [Array.prototype.sort(cmp)] is a stable sort (ECMAScript 2019): for
    a consistent comparator its result is the one sorted permutation
    that keeps ties in their input order.  Inserting each element,
    from the right, in front of the first element it does not have to
    follow computes that result. *)
Fixpoint sort_insert {A} (cmp : A → A → Z) (x : A) (l : list A) : list A :=
  match l with
  | [] => [x]
  | y :: l' => if decide (cmp x y ≤ 0) then x :: l
               else y :: sort_insert cmp x l'
  end.

Definition sort {A} (cmp : A → A → Z) (l : list A) : list A :=
  foldr (sort_insert cmp) [] l.

End JsString.
Import JsString.

(* ------------------------------------------------------------------ *)
(** ** [src/types/x-api.ts] and [src/types/config.ts] *)

Record PublicMetrics := {
  retweet_count : Z;
  reply_count : Z;
  like_count : Z;
  quote_count : Z;
  bookmark_count : Z;
  impression_count : Z;
}.

Record Tweet := {
  t_id : jsstring;
  t_text : jsstring;
  t_author_id : jsstring;
  t_created_at : jsstring;
  t_public_metrics : PublicMetrics;
}.

Record User := {
  u_id : jsstring;
  u_name : jsstring;
  u_username : jsstring;
}.

Record XApiError := {
  e_title : jsstring;
  e_detail : jsstring;
  e_type : jsstring;
  e_value : option jsstring;
}.

Record Includes := { users : option (list User) }.

Record Meta := {
  newest_id : option jsstring;
  oldest_id : option jsstring;
  result_count : Z;
  next_token : option jsstring;
}.

Record TweetSearchResponse := {
  data : option (list Tweet);
  includes : option Includes;
  meta : Meta;
  errors : option (list XApiError);
}.

Record Author := { name : jsstring; username : jsstring }.

Record ProcessedTweet := {
  p_id : jsstring;
  p_text : jsstring;
  p_author : Author;
  p_created_at : jsstring;
  likes : Z;
  retweets : Z;
  url : jsstring;
}.

Record GlobalSettings := {
  min_likes : Z;
  max_results : Z;
  lang : jsstring;
}.

Record KeywordEntry := {
  term : jsstring;
  k_min_likes : option Z;
}.

Record KeywordConfig := {
  version : Z;
  global_settings : GlobalSettings;
  keywords : list KeywordEntry;
}.

Record Env := {
  X_BEARER_TOKEN : jsstring;
  SLACK_WEBHOOK_URL : jsstring;
  MANUAL_TRIGGER_KEY : option jsstring;
}.

(* ------------------------------------------------------------------ *)
(** ** [src/services/tweet-processor.ts] *)

Module Processor.

Definition DUPLICATE_CHECK_LENGTH : nat := 100.
Definition DEFAULT_DISPLAY_LIMIT : Z := 10.

Definition createUserMap (us : list User) : gmap jsstring User :=
  foldl (λ m user, <[u_id user := user]> m) ∅ us.

Definition convertToProcessedTweet
    (tweet : Tweet) (userMap : gmap jsstring User) : option ProcessedTweet :=
  match userMap !! t_author_id tweet with
  | None => None
  | Some user =>
      Some {| p_id := t_id tweet;
              p_text := t_text tweet;
              p_author := {| name := u_name user; username := u_username user |};
              p_created_at := t_created_at tweet;
              likes := like_count (t_public_metrics tweet);
              retweets := retweet_count (t_public_metrics tweet);
              url := str "https://x.com/" ++ u_username user
                     ++ str "/status/" ++ t_id tweet |}
  end.

Definition filterByLikes (tweets : list ProcessedTweet) (minLikes : Z)
    : list ProcessedTweet :=
  filter (λ tweet, minLikes ≤ likes tweet) tweets.

(** [tweet.text.slice(0, DUPLICATE_CHECK_LENGTH).trim()] *)
Definition dedupKey (tweet : ProcessedTweet) : jsstring :=
  trim (take DUPLICATE_CHECK_LENGTH (p_text tweet)).

(** One turn of the [for (const tweet of tweets)] loop over the pair
    ([seen], [deduplicated]). *)
Definition dedupStep (st : gset jsstring * list ProcessedTweet)
    (tweet : ProcessedTweet) : gset jsstring * list ProcessedTweet :=
  let key := dedupKey tweet in
  if decide (key ∈ st.1) then st
  else ({[key]} ∪ st.1, st.2 ++ [tweet]).

Definition removeDuplicates (tweets : list ProcessedTweet)
    : list ProcessedTweet :=
  (foldl dedupStep (∅, []) tweets).2.

(** The same loop as a recursion on the posts still to visit, [seen]
    being the keys met so far; [removeDuplicates_dedupFrom] below
    relates it to [removeDuplicates]. *)
Fixpoint dedupFrom (seen : gset jsstring) (tweets : list ProcessedTweet)
    : list ProcessedTweet :=
  match tweets with
  | [] => []
  | tweet :: rest =>
      if decide (dedupKey tweet ∈ seen) then dedupFrom seen rest
      else tweet :: dedupFrom ({[dedupKey tweet]} ∪ seen) rest
  end.

Definition sortByLikes (tweets : list ProcessedTweet) : list ProcessedTweet :=
  sort (λ a b, likes b - likes a) tweets.

(** The local [tweets] and [users] of [processTweets]. *)
Definition responseTweets (response : TweetSearchResponse) : list Tweet :=
  default [] (data response).

Definition responseUsers (response : TweetSearchResponse) : list User :=
  default [] (includes response ≫= users).

(** The local [processedTweets]: [tweets.map(convert).filter(non-null)]. *)
Definition processedStage (response : TweetSearchResponse) : list ProcessedTweet :=
  omap (λ tweet, convertToProcessedTweet tweet
                   (createUserMap (responseUsers response)))
       (responseTweets response).

(** The local [filteredByLikes]. *)
Definition filteredStage (response : TweetSearchResponse) (minLikes : Z) :=
  filterByLikes (processedStage response) minLikes.

(** The local [deduplicated]. *)
Definition deduplicatedStage (response : TweetSearchResponse) (minLikes : Z) :=
  removeDuplicates (filteredStage response minLikes).

Definition processTweets (response : TweetSearchResponse) (minLikes : Z)
    (displayLimit : Z) : list ProcessedTweet :=
  let tweets := responseTweets response in
  if decide (length tweets = 0%nat) then []
  else
    let sorted := sortByLikes (deduplicatedStage response minLikes) in
    slice0 sorted displayLimit.

End Processor.

(* ------------------------------------------------------------------ *)
(** ** Thrown values

    The program throws plain [Error]s told apart by their message, and
    [XApiClientError]s that carry a status code.  One constructor per
    [throw] site of the embedded sources, and [TypeError] for the
    error the engine throws where [handleErrorResponse] reads a member
    of [null]. *)

Inductive ClientMessage :=
| MsgAuth                          (* 'X API 認証エラー: トークンが無効です' *)
| MsgCredit                        (* 'X API クレジット枯渇: ...' *)
| MsgRateLimit                     (* 'X API レート制限: ...' *)
| MsgServer (code : Z)             (* `X API サーバーエラー: ${statusCode}` *)
| MsgGeneric (code : Z)            (* `X API エラー: ${statusCode}` *)
| MsgTimeout                       (* 'X API リクエストがタイムアウトしました' *)
| MsgRequestFailed (cause : jsstring).

Record XApiClientError := {
  message : ClientMessage;
  statusCode : Z;
  error_details : list XApiError;
}.

Inductive Thrown :=
| NoKeywordsError
| QueryTooLongError (queryLength : nat)
| BearerTokenMissing
| ClientError (e : XApiClientError)
| TypeError (cause : jsstring)
| ThrownNull
| ConfigVersionInvalid
| ConfigMinLikesInvalid
| ConfigMaxResultsInvalid
| ConfigLangInvalid
| ConfigKeywordsEmpty
| KeywordTermInvalid (index : nat)
| KeywordMinLikesInvalid (index : nat)
| WebhookUrlMissing
| SlackApiError (status : Z)
| SlackTimeout
| SlackRejected (cause : jsstring).

(* ------------------------------------------------------------------ *)
(** ** [src/utils/query-builder.ts] *)

Module QueryBuilder.

Definition QUERY_MAX_LENGTH : nat := 1024.
Definition BASE_CONDITIONS : jsstring := str "-is:retweet".

(** The callback of [keywords.map]: [k.term.includes(' ')] decides the
    quoting. *)
Definition keywordTerm (k : KeywordEntry) : jsstring :=
  if decide (SPACE ∈ term k) then [DQUOTE] ++ term k ++ [DQUOTE]
  else term k.

(** The local [fullQuery]. *)
Definition fullQuery (keywords : list KeywordEntry)
    (globalSettings : GlobalSettings) : jsstring :=
  let langCondition := str "lang:" ++ lang globalSettings in
  let baseQuery := BASE_CONDITIONS ++ str " " ++ langCondition in
  let keywordTerms := keywordTerm <$> keywords in
  let keywordQuery := str "(" ++ join (str " OR ") keywordTerms ++ str ")" in
  keywordQuery ++ str " " ++ baseQuery.

Definition buildSearchQueries (keywords : list KeywordEntry)
    (globalSettings : GlobalSettings) : Thrown + list jsstring :=
  if decide (length keywords = 0%nat) then inl NoKeywordsError
  else
    let q := fullQuery keywords globalSettings in
    if decide (QUERY_MAX_LENGTH < length q)%nat
    then inl (QueryTooLongError (length q))
    else inr [q].

End QueryBuilder.

(* ------------------------------------------------------------------ *)
(** ** [src/config.ts] *)

Module Config.

Definition validateGlobalSettings (settings : GlobalSettings) : Thrown + unit :=
  if decide (min_likes settings < 0) then inl ConfigMinLikesInvalid
  else if decide (max_results settings < 10 ∨ max_results settings > 100)
  then inl ConfigMaxResultsInvalid
  else if decide (length (lang settings) = 0%nat) then inl ConfigLangInvalid
  else inr ().

Definition validateKeywordEntry (keyword : KeywordEntry) (index : nat)
    : Thrown + unit :=
  if decide (length (trim (term keyword)) = 0%nat)
  then inl (KeywordTermInvalid index)
  else match k_min_likes keyword with
       | Some m => if decide (m < 0) then inl (KeywordMinLikesInvalid index)
                   else inr ()
       | None => inr ()
       end.

(** [config.keywords.forEach((keyword, index) => ...)]: the first entry
    that throws ends the loop. *)
Fixpoint validateKeywords (ks : list KeywordEntry) (index : nat) : Thrown + unit :=
  match ks with
  | [] => inr ()
  | k :: ks' => match validateKeywordEntry k index with
                | inl e => inl e
                | inr _ => validateKeywords ks' (S index)
                end
  end.

Definition validateConfig (config : KeywordConfig) : Thrown + unit :=
  if decide (version config < 1) then inl ConfigVersionInvalid
  else match validateGlobalSettings (global_settings config) with
       | inl e => inl e
       | inr _ =>
           if decide (length (keywords config) = 0%nat) then inl ConfigKeywordsEmpty
           else validateKeywords (keywords config) 0
       end.

(** [keywordsData] is the imported [keywords.json], taken as an
    argument. *)
Definition loadConfig (keywordsData : KeywordConfig) : Thrown + KeywordConfig :=
  match validateConfig keywordsData with
  | inl e => inl e
  | inr _ => inr keywordsData
  end.

Definition getMinLikes (keyword : KeywordEntry) (globalSettings : GlobalSettings) : Z :=
  match k_min_likes keyword with
  | Some m => m
  | None => min_likes globalSettings
  end.

(** The data model's [KeywordEntry]: [min_likes], where present, is a
    non-negative integer (what [validateKeywordEntry] accepts). *)
Definition minLikesWellFormed (k : KeywordEntry) : Prop :=
  from_option (λ m, 0 ≤ m) True (k_min_likes k).

End Config.

(* ------------------------------------------------------------------ *)
(** ** Effects: the outside world and the monad of the network code *)

Module Eff.

Record SearchParams := {
  query : jsstring;
  start_time : jsstring;
  sp_max_results : Z;
  tweet_fields : jsstring;
  user_fields : jsstring;
  expansions : jsstring;
}.

(** What [await response.json()] comes to where [handleErrorResponse]
    reads the body of an error response into [errorData]. *)
Inductive ErrorData :=
| Unparsable                 (* it rejects: [errorData] stays [{}] *)
| JsonNull (cause : jsstring)
    (* the body is [null]; [cause] is the message of the TypeError
       that reading a member of [null] throws *)
| Json (errors : option (list XApiError)).
    (* another JSON value, with its [errors] member unless that is
       absent or falsy *)

(** What [fetch] on the search endpoint and the reading of its body
    come to.  [json_search] is [response.json()] read as a search
    payload ([inl] the message of the error it throws); [error_data]
    is [response.json()] as read from an error response. *)
Record HttpResponse := {
  status : Z;
  json_search : jsstring + TweetSearchResponse;
  error_data : ErrorData;
}.

Inductive FetchOutcome :=
| FetchAborted                       (* rejects with an AbortError *)
| FetchRejected (cause : jsstring)   (* rejects with another error *)
| FetchResponse (response : HttpResponse).

Inductive SlackOutcome :=
| PostAborted
| PostRejected (cause : jsstring)
| PostResponse (status : Z).

Record SummaryTweet := {
  s_id : jsstring;
  s_text : jsstring;
  s_author : jsstring;
  s_username : jsstring;
  s_likes : Z;
  s_retweets : Z;
  s_url : jsstring;
}.

Record Stats := { fetched : Z; filtered : Z; displayed : Z }.

Record NotificationSummary := {
  date : jsstring;
  summary_keywords : list jsstring;
  summary_tweets : list SummaryTweet;
  stats : Stats;
}.

(** The two payloads the notifier builds; their Block Kit layout is
    not modelled. *)
Inductive SlackWebhookPayload :=
| DailySummaryPayload (summary : NotificationSummary)
| ErrorPayload (error : Thrown).

Inductive Event :=
| EvFetch (bearerToken : jsstring) (params : SearchParams)
| EvSleep (ms : Z)
| EvPost (webhookUrl : jsstring) (payload : SlackWebhookPayload).

(** The script of one invocation: the outcome of the n-th search
    request and of the n-th webhook post, each as a function of what is
    sent, and the two strings the code derives from the clock. *)
Record World := {
  fetches : nat → jsstring → SearchParams → FetchOutcome;
  posts : nat → jsstring → SlackWebhookPayload → SlackOutcome;
  startTimeISO : Z → jsstring;
  todayJST : jsstring;
}.

Record State := {
  fetchCalls : nat;
  postCalls : nat;
  trace : list Event;
}.

Definition initial : State :=
  {| fetchCalls := 0; postCalls := 0; trace := [] |}.

Definition M (A : Type) : Type := State → (Thrown + A) * State.

#[export] Instance M_ret : MRet M := λ A a st, (inr a, st).

#[export] Instance M_bind : MBind M := λ A B k m st,
  match m st with
  | (inl e, st') => (inl e, st')
  | (inr a, st') => k a st'
  end.

Definition throw {A} (e : Thrown) : M A := λ st, (inl e, st).

Definition try_catch {A} (m : M A) (handler : Thrown → M A) : M A := λ st,
  match m st with
  | (inl e, st') => handler e st'
  | (inr a, st') => (inr a, st')
  end.

Definition lift {A} (r : Thrown + A) : M A :=
  match r with
  | inl e => throw e
  | inr a => mret a
  end.

Definition emit (ev : Event) : M unit := λ st,
  (inr (), {| fetchCalls := fetchCalls st; postCalls := postCalls st;
              trace := trace st ++ [ev] |}).

Definition sleep (ms : Z) : M unit := emit (EvSleep ms).

(** [await fetch(url, {..., Authorization: Bearer token})] *)
Definition fetchSearch (w : World) (token : jsstring) (params : SearchParams)
    : M FetchOutcome := λ st,
  (inr (fetches w (fetchCalls st) token params),
   {| fetchCalls := S (fetchCalls st); postCalls := postCalls st;
      trace := trace st ++ [EvFetch token params] |}).

(** [await fetch(this.webhookUrl, {method: 'POST', body: ...})] *)
Definition fetchPost (w : World) (webhookUrl : jsstring)
    (payload : SlackWebhookPayload) : M SlackOutcome := λ st,
  (inr (posts w (postCalls st) webhookUrl payload),
   {| fetchCalls := fetchCalls st; postCalls := S (postCalls st);
      trace := trace st ++ [EvPost webhookUrl payload] |}).

End Eff.
Import Eff.

(* ------------------------------------------------------------------ *)
(** ** [src/services/x-client.ts] *)

Module Client.

Record XApiClient := { bearerToken : jsstring }.

(** [constructor(bearerToken)]: the empty string is the falsy token. *)
Definition newXApiClient (token : jsstring) : Thrown + XApiClient :=
  if decide (token = []) then inl BearerTokenMissing
  else inr {| bearerToken := token |}.

(** [response.ok] *)
Definition ok (response : HttpResponse) : bool :=
  bool_decide (200 ≤ status response ≤ 299).

(** The [switch (statusCode)] of [handleErrorResponse]. *)
Definition errorMessage (statusCode : Z) : ClientMessage :=
  if decide (statusCode = 401 ∨ statusCode = 403) then MsgAuth
  else if decide (statusCode = 402) then MsgCredit
  else if decide (statusCode = 429) then MsgRateLimit
  else if decide (statusCode = 500 ∨ statusCode = 502
                  ∨ statusCode = 503 ∨ statusCode = 504)
  then MsgServer statusCode
  else MsgGeneric statusCode.

(** [errorData.errors || []]; the member access throws on [null]. *)
Definition errorsOf (errorData : ErrorData) : Thrown + list XApiError :=
  match errorData with
  | Unparsable => inr []
  | JsonNull cause => inl (TypeError cause)
  | Json errors => inr (default [] errors)
  end.

Definition handleErrorResponse (response : HttpResponse) : Thrown + unit :=
  if ok response then inr ()
  else
    let statusCode := status response in
    match errorsOf (error_data response) with
    | inl typeError => inl typeError
    | inr errors =>
        inl (ClientError {| message := errorMessage statusCode;
                            statusCode := statusCode;
                            error_details := errors |})
    end.

(** The [catch (error)] block is written at each place the [try]
    block can throw: an [XApiClientError] is thrown again, an
    AbortError becomes the status-0 timeout error, and any other error
    (a rejected [fetch], a body that cannot be read, the TypeError of
    [handleErrorResponse]) becomes the status-0 error carrying its
    message. *)
Definition searchRecentTweets (w : World) (client : XApiClient)
    (params : SearchParams) : M TweetSearchResponse :=
  outcome ← fetchSearch w (bearerToken client) params;
  match outcome with
  | FetchResponse response =>
      match handleErrorResponse response with
      | inl (TypeError cause) =>
          throw (ClientError {| message := MsgRequestFailed cause;
                                statusCode := 0; error_details := [] |})
      | inl error => throw error
      | inr _ =>
          match json_search response with
          | inr data => mret data
          | inl cause =>
              throw (ClientError {| message := MsgRequestFailed cause;
                                    statusCode := 0; error_details := [] |})
          end
      end
  | FetchAborted =>
      throw (ClientError {| message := MsgTimeout;
                            statusCode := 0; error_details := [] |})
  | FetchRejected cause =>
      throw (ClientError {| message := MsgRequestFailed cause;
                            statusCode := 0; error_details := [] |})
  end.

(** The [for (let attempt = 0; attempt <= maxRetries; attempt++)] loop,
    [iterations] turns of it being left; leaving the loop reaches
    [throw lastError!]. *)
Fixpoint retryLoop (w : World) (client : XApiClient) (params : SearchParams)
    (maxRetries retryDelay : Z) (iterations : nat) (attempt : Z)
    (lastError : option XApiClientError) : M TweetSearchResponse :=
  match iterations with
  | O => throw (from_option ClientError ThrownNull lastError)
  | S rest =>
      try_catch (searchRecentTweets w client params) (λ error,
        match error with
        | ClientError e =>
            if decide (statusCode e ∈ [401; 402; 403; 429]) then throw error
            else if decide (500 ≤ statusCode e ∧ statusCode e < 600
                            ∧ attempt < maxRetries)
            then
              sleep retryDelay;;
              retryLoop w client params maxRetries retryDelay rest
                        (attempt + 1) (Some e)
            else throw error
        | _ => throw error
        end)
  end.

Definition searchRecentTweetsWithRetry (w : World) (client : XApiClient)
    (params : SearchParams) (maxRetries retryDelay : Z)
    : M TweetSearchResponse :=
  retryLoop w client params maxRetries retryDelay
            (Z.to_nat (maxRetries + 1)) 0 None.

Definition DEFAULT_MAX_RETRIES : Z := 1.
Definition DEFAULT_RETRY_DELAY : Z := 30000.

End Client.

(* ------------------------------------------------------------------ *)
(** ** [src/services/slack-notifier.ts] (delivery and summary only) *)

Module Slack.

Definition MAX_RETRIES : nat := 2.
Definition RETRY_DELAY : Z := 5000.

Record SlackNotifier := { webhookUrl : jsstring }.

Definition newSlackNotifier (url : jsstring) : Thrown + SlackNotifier :=
  if decide (url = []) then inl WebhookUrlMissing
  else inr {| webhookUrl := url |}.

Definition send (w : World) (notifier : SlackNotifier)
    (payload : SlackWebhookPayload) : M unit :=
  outcome ← fetchPost w (webhookUrl notifier) payload;
  match outcome with
  | PostResponse status =>
      if decide (200 ≤ status ≤ 299) then mret ()
      else throw (SlackApiError status)
  | PostAborted => throw SlackTimeout
  | PostRejected cause => throw (SlackRejected cause)
  end.

Fixpoint sendWithRetry (w : World) (notifier : SlackNotifier)
    (payload : SlackWebhookPayload) (retries : nat) : M unit :=
  try_catch (send w notifier payload) (λ error,
    match retries with
    | S retries' =>
        sleep RETRY_DELAY;;
        sendWithRetry w notifier payload retries'
    | O => throw error
    end).

Definition sendDailySummary (w : World) (notifier : SlackNotifier)
    (summary : NotificationSummary) : M unit :=
  sendWithRetry w notifier (DailySummaryPayload summary) MAX_RETRIES.

Definition sendErrorNotification (w : World) (notifier : SlackNotifier)
    (error : Thrown) : M unit :=
  try_catch (sendWithRetry w notifier (ErrorPayload error) MAX_RETRIES)
            (λ _, mret ()).

Definition buildNotificationSummary (w : World) (tweets : list ProcessedTweet)
    (keywords : list jsstring) (fetchedCount filteredCount : Z)
    : NotificationSummary :=
  {| date := todayJST w;
     summary_keywords := keywords;
     summary_tweets :=
       (λ tweet, {| s_id := p_id tweet;
                    s_text := p_text tweet;
                    s_author := name (p_author tweet);
                    s_username := username (p_author tweet);
                    s_likes := likes tweet;
                    s_retweets := retweets tweet;
                    s_url := url tweet |}) <$> tweets;
     stats := {| fetched := fetchedCount;
                 filtered := filteredCount;
                 displayed := Z.of_nat (length tweets) |} |}.

End Slack.

(* ------------------------------------------------------------------ *)
(** ** [src/index.ts]: the daily job *)

Module Job.

Import Processor QueryBuilder Config Client Slack.

(** The [try] block of [executeDailyJob]. *)
Definition dailyJobBody (w : World) (keywordsData : KeywordConfig) (env : Env)
    : M unit :=
  config ← lift (loadConfig keywordsData);
  let global_settings := global_settings config in
  let keywords := keywords config in
  queries ← lift (buildSearchQueries keywords global_settings);
  (* [queries[0]]; the builder returns one query *)
  let query := default [] (queries !! 0%nat) in
  xClient ← lift (newXApiClient (X_BEARER_TOKEN env));
  let startTimeISO := startTimeISO w 24 in
  response ← searchRecentTweetsWithRetry w xClient
    {| query := query;
       start_time := startTimeISO;
       sp_max_results := max_results global_settings;
       tweet_fields := str "created_at,public_metrics,author_id";
       user_fields := str "username,name";
       expansions := str "author_id" |}
    DEFAULT_MAX_RETRIES DEFAULT_RETRY_DELAY;
  let fetchedCount := result_count (meta response) in
  let processedTweets :=
    processTweets response (min_likes global_settings) DEFAULT_DISPLAY_LIMIT in
  let keywordTerms := term <$> keywords in
  let summary :=
    buildNotificationSummary w processedTweets keywordTerms fetchedCount
                             (Z.of_nat (length processedTweets)) in
  slackNotifier ← lift (newSlackNotifier (SLACK_WEBHOOK_URL env));
  sendDailySummary w slackNotifier summary.

Definition executeDailyJob (w : World) (keywordsData : KeywordConfig) (env : Env)
    : M unit :=
  try_catch (dailyJobBody w keywordsData env) (λ error,
    (if decide (SLACK_WEBHOOK_URL env = []) then mret ()
     else
       try_catch
         (slackNotifier ← lift (newSlackNotifier (SLACK_WEBHOOK_URL env));
          sendErrorNotification w slackNotifier error)
         (λ _, mret ()));;
    throw error).

End Job.

(* ------------------------------------------------------------------ *)
(** ** Sample data: the inputs at which the properties below are run *)

Module Examples.
Import Client.

Definition metrics (likeCount : Z) : PublicMetrics :=
  {| retweet_count := 0; reply_count := 0; like_count := likeCount;
     quote_count := 0; bookmark_count := 0; impression_count := 0 |}.

Definition tweet (id text author : jsstring) (likeCount : Z) : Tweet :=
  {| t_id := id; t_text := text; t_author_id := author;
     t_created_at := str "2026-02-10T00:00:00.000Z";
     t_public_metrics := metrics likeCount |}.

Definition processed (id text : jsstring) (user : User) (likeCount : Z)
    : ProcessedTweet :=
  {| p_id := id; p_text := text;
     p_author := {| name := u_name user; username := u_username user |};
     p_created_at := str "2026-02-10T00:00:00.000Z";
     likes := likeCount; retweets := 0;
     url := str "https://x.com/" ++ u_username user ++ str "/status/" ++ id |}.

Definition user1 : User :=
  {| u_id := str "user1"; u_name := str "User One"; u_username := str "user_one" |}.
Definition user2 : User :=
  {| u_id := str "user2"; u_name := str "User Two"; u_username := str "user_two" |}.

Definition metaOf (count : Z) : Meta :=
  {| newest_id := None; oldest_id := None; result_count := count;
     next_token := None |}.

(** A templated text: 100 code units shared by two posts that differ
    only behind them. *)
Definition templated : jsstring := concat (replicate 10 (str "duplicate ")).

Definition tweetA1 := tweet (str "1") (str "Learning Ruby today") (str "user1") 2.
Definition tweetA2 := tweet (str "2") (templated ++ str "first copy") (str "user1") 10.
Definition tweetA3 := tweet (str "3") (templated ++ str "second copy") (str "user2") 10.
Definition tweetA4 := tweet (str "4") (str "This is a unique tweet") (str "user2") 5.

Definition postA2 := processed (str "2") (templated ++ str "first copy") user1 10.
Definition postA4 := processed (str "4") (str "This is a unique tweet") user2 5.

(** Scenario A of the specification. *)
Definition scenarioA : TweetSearchResponse :=
  {| data := Some [tweetA1; tweetA2; tweetA3; tweetA4];
     includes := Some {| users := Some [user1; user2] |};
     meta := metaOf 4; errors := None |}.

(** Three posts with likes 5, 7, 5. *)
Definition tweetT1 := tweet (str "11") (str "Tweet 1") (str "user1") 5.
Definition tweetT2 := tweet (str "12") (str "Tweet 2") (str "user2") 7.
Definition tweetT3 := tweet (str "13") (str "Tweet 3") (str "user1") 5.
Definition postT1 := processed (str "11") (str "Tweet 1") user1 5.
Definition postT3 := processed (str "13") (str "Tweet 3") user1 5.

Definition tied : TweetSearchResponse :=
  {| data := Some [tweetT1; tweetT2; tweetT3];
     includes := Some {| users := Some [user1; user2] |};
     meta := metaOf 3; errors := None |}.

Definition ja : GlobalSettings :=
  {| min_likes := 3; max_results := 50; lang := str "ja" |}.

Definition keyword (t : jsstring) (minLikes : option Z) : KeywordEntry :=
  {| term := t; k_min_likes := minLikes |}.

(** A term with a TAB (U+0009) between its two letters. *)
Definition tabbed : jsstring := [97; 9; 98]%N.

Definition configA : KeywordConfig :=
  {| version := 1; global_settings := ja;
     keywords := [keyword (str "#Rails") (Some 5);
                  keyword (str "Hono Framework") None] |}.

Definition configB : KeywordConfig :=
  {| version := 1; global_settings := ja;
     keywords := [keyword (str "#Rails") None;
                  keyword (str "Hono Framework") (Some 0)] |}.

Definition env : Env :=
  {| X_BEARER_TOKEN := str "token";
     SLACK_WEBHOOK_URL := str "https://hooks.slack.example/T000";
     MANUAL_TRIGGER_KEY := None |}.

Definition okResponse (payload : TweetSearchResponse) : FetchOutcome :=
  FetchResponse {| status := 200; json_search := inr payload;
                   error_data := Json None |}.

(** An error response with the body [{errors: []}]; [json_search] is
    not read for it. *)
Definition errorResponse (statusCode : Z) : HttpResponse :=
  {| status := statusCode; json_search := inl [];
     error_data := Json (Some []) |}.

(** The world that answers the search requests with [outcomes], in
    order (and times out after them), and accepts every post. *)
Definition world (outcomes : list FetchOutcome) : World :=
  {| fetches := λ n _ _, default FetchAborted (outcomes !! n);
     posts := λ _ _ _, PostResponse 200;
     startTimeISO := λ _, str "2026-02-09T08:00:00.000Z";
     todayJST := str "2026/02/10" |}.

Definition client : XApiClient := {| bearerToken := str "token" |}.

Definition params : SearchParams :=
  {| query := str "(#Rails) -is:retweet lang:ja";
     start_time := str "2026-02-09T08:00:00.000Z";
     sp_max_results := 50;
     tweet_fields := str "created_at,public_metrics,author_id";
     user_fields := str "username,name";
     expansions := str "author_id" |}.

End Examples.

(* ------------------------------------------------------------------ *)
(** ** [src/services/slack-notifier.ts]: the Block Kit payload *)

Module Payload.

Inductive TextType := mrkdwn | plain_text.

Record TextObject := {
  text_type : TextType;
  text : jsstring;
  emoji : option bool;
}.

Inductive Block :=
| HeaderBlock (header : TextObject)
| SectionBlock (section : TextObject)
| DividerBlock
| ContextBlock (elements : list TextObject).

Record BlockKitPayload := {
  fallback_text : jsstring;
  blocks : list Block;
}.

#[export] Instance TextType_eq_dec : EqDecision TextType.
Proof. solve_decision. Defined.
#[export] Instance TextObject_eq_dec : EqDecision TextObject.
Proof. solve_decision. Defined.
#[export] Instance Block_eq_dec : EqDecision Block.
Proof. solve_decision. Defined.

(** The medals of [MEDAL_EMOJIS], as surrogate pairs. *)
Definition MEDAL_EMOJIS : list jsstring :=
  [ [55358; 56647]; [55358; 56648]; [55358; 56649] ]%N.

(** The loudspeaker sign and the headline of the daily summary. *)
Definition HEADLINE : jsstring :=
  [55357; 56546; 32; 26412; 26085; 12398; 12488; 12500; 12483; 12463;
   12414; 12392; 12417]%N.

(** The sentence shown when no post is left. *)
Definition NO_TWEETS : jsstring :=
  [35442; 24403; 12377; 12427; 25237; 31295; 12399; 12354; 12426; 12414;
   12379; 12435; 12391; 12375; 12383; 12290]%N.

Definition LINE_FEED : jsstring := [10]%N.

Section Blocks.
(** [`${n}`] for a number: the conversion of the language. *)
Context (numberToString : Z → jsstring).

Definition buildHeaderBlock (date : jsstring) : Block :=
  HeaderBlock {| text_type := plain_text;
                 text := HEADLINE ++ str " (" ++ date ++ str ")";
                 emoji := Some true |}.

Definition buildKeywordsSection (keywords : list jsstring) : Block :=
  SectionBlock {| text_type := mrkdwn;
                  text := str "*Keywords:* " ++ join (str ", ") keywords;
                  emoji := None |}.

Definition buildNoTweetsSection : Block :=
  SectionBlock {| text_type := mrkdwn; text := NO_TWEETS; emoji := None |}.

(** The local [medal] of [buildTweetSection]. *)
Definition medalOf (index : nat) : jsstring :=
  if decide (index < length MEDAL_EMOJIS)%nat
  then default [] (MEDAL_EMOJIS !! index) ++ str " "
  else [].

(** The local [displayText] of [buildTweetSection]. *)
Definition displayTextOf (tweet : SummaryTweet) : jsstring :=
  let maxTextLength := 200%nat in
  if decide (maxTextLength < length (s_text tweet))%nat
  then take maxTextLength (s_text tweet) ++ str "..."
  else s_text tweet.

Definition buildTweetSection (tweet : SummaryTweet) (index : nat) : Block :=
  let medal := medalOf index in
  let displayText := displayTextOf tweet in
  SectionBlock
    {| text_type := mrkdwn;
       text :=
         (medal ++ [42; 10084; 65039; 32]%N ++ numberToString (s_likes tweet)
          ++ [32; 124; 32; 55357; 56577; 32]%N
          ++ numberToString (s_retweets tweet)
          ++ str "* | @" ++ s_username tweet ++ LINE_FEED)
         ++ (displayText ++ LINE_FEED)
         ++ (str "<" ++ s_url tweet
             ++ [124; 55357; 56599; 32; 25237; 31295; 12434; 35211; 12427; 62]%N);
       emoji := None |}.

Definition buildStatsSection (stats : Stats) : Block :=
  ContextBlock
    [ {| text_type := mrkdwn;
         text := [8505; 65039; 32; 21462; 24471; 58; 32]%N
                 ++ numberToString (fetched stats)
                 ++ [20214; 32; 8594; 32; 12501; 12451; 12523; 12479; 24460;
                     58; 32]%N
                 ++ numberToString (filtered stats)
                 ++ [20214; 32; 8594; 32; 34920; 31034; 58; 32]%N
                 ++ numberToString (displayed stats)
                 ++ [20214]%N;
         emoji := None |} ].

(** The [summary.tweets.forEach((tweet, index) => ...)] loop: [total] is
    [summary.tweets.length], [index] the position of the head of
    [tweets]. *)
Fixpoint pushTweets (total : nat) (index : nat) (tweets : list SummaryTweet)
    : list Block :=
  match tweets with
  | [] => []
  | tweet :: rest =>
      buildTweetSection tweet index
      :: (if decide (Z.of_nat index < Z.of_nat total - 1)
          then [DividerBlock] else [])
      ++ pushTweets total (S index) rest
  end.

Definition buildPayload (summary : NotificationSummary) : BlockKitPayload :=
  let tweets := summary_tweets summary in
  {| fallback_text := HEADLINE ++ str " (" ++ date summary ++ str ")";
     blocks :=
       [buildHeaderBlock (date summary);
        buildKeywordsSection (summary_keywords summary);
        DividerBlock]
       ++ (if decide (length tweets = 0%nat) then [buildNoTweetsSection]
           else pushTweets (length tweets) 0 tweets)
       ++ [DividerBlock; buildStatsSection (stats summary)] |}.

End Blocks.

End Payload.

(* ------------------------------------------------------------------ *)
(** ** [src/index.ts]: the manual trigger endpoint *)

Module Trigger.

Import Job.

(** The three JSON bodies of [GET /trigger]. *)
Inductive TriggerBody :=
| Unauthorized                   (* { error: 'Unauthorized' } *)
| Completed                      (* { success: true, message: ... } *)
| Failed (error : Thrown).       (* { success: false, error: error.message } *)

Record JsonReply := {
  reply_status : Z;
  reply_body : TriggerBody;
}.

(** [!env.MANUAL_TRIGGER_KEY]: the key is absent or the empty string. *)
Definition keyMissing (env : Env) : Prop :=
  MANUAL_TRIGGER_KEY env = None ∨ MANUAL_TRIGGER_KEY env = Some [].

(** The handler of [app.get('/trigger', ...)]; [queryKey] is
    [c.req.query('key')]. *)
Definition triggerHandler (w : World) (keywordsData : KeywordConfig)
    (env : Env) (queryKey : option jsstring) : M JsonReply :=
  if decide (keyMissing env ∨ queryKey ≠ MANUAL_TRIGGER_KEY env)
  then mret {| reply_status := 401; reply_body := Unauthorized |}
  else
    try_catch
      (executeDailyJob w keywordsData env;;
       mret {| reply_status := 200; reply_body := Completed |})
      (λ error, mret {| reply_status := 500; reply_body := Failed error |}).

End Trigger.

(* ------------------------------------------------------------------ *)
(** ** Vocabulary of the statements *)

Module Vocabulary.

(** A string of whitespace code units only. *)
Definition blank (s : jsstring) : Prop := Forall (λ c, is_whitespace c = true) s.

(** [s] occurs in [q] as a run of consecutive code units. *)
Definition substring (s q : jsstring) : Prop := ∃ pre post, q = pre ++ s ++ post.

(** The body of the error response is the JSON value [null]. *)
Definition nullBody (response : HttpResponse) : Prop :=
  match error_data response with
  | JsonNull _ => True
  | _ => False
  end.

#[export] Instance nullBody_dec response : Decision (nullBody response).
Proof. unfold nullBody. destruct (error_data response); apply _. Defined.

(** The outcome is an HTTP response with a status in 500-599 whose
    body is not [null]. *)
Definition serverError (outcome : FetchOutcome) : Prop :=
  match outcome with
  | FetchResponse response =>
      500 ≤ status response ≤ 599 ∧ ¬ nullBody response
  | _ => False
  end.

#[export] Instance serverError_dec outcome : Decision (serverError outcome).
Proof. destruct outcome; simpl; apply _. Defined.

(** The events of [n] attempts: [n] times [request], with a sleep of
    [delay] between two of them. *)
Fixpoint attempts (request : Event) (delay : Z) (n : nat) : list Event :=
  match n with
  | O => []
  | S O => [request]
  | S n' => request :: EvSleep delay :: attempts request delay n'
  end.

(** The result of the search that issues request number [n] of the
    world. *)
Definition searchResultAt (w : World) (client : Client.XApiClient)
    (params : SearchParams) (n : nat) : Thrown + TweetSearchResponse :=
  (Client.searchRecentTweets w client params
     {| fetchCalls := n; postCalls := 0; trace := [] |}).1.

(** The webhook answered the post with a 2xx status. *)
Definition postOk (outcome : SlackOutcome) : Prop :=
  match outcome with
  | PostResponse status => 200 ≤ status ≤ 299
  | _ => False
  end.

(** The result of the [send] that issues post number [n] of the world. *)
Definition sendResultAt (w : World) (notifier : Slack.SlackNotifier)
    (payload : SlackWebhookPayload) (n : nat) : Thrown + unit :=
  (Slack.send w notifier payload
     {| fetchCalls := 0; postCalls := n; trace := [] |}).1.

(** The elements of [l] with [sep] between each two of them. *)
Fixpoint separated {A} (sep : A) (l : list A) : list A :=
  match l with
  | [] => []
  | [x] => [x]
  | x :: rest => x :: sep :: separated sep rest
  end.

(** The caller of [GET /trigger] presents the configured, non-empty
    key. *)
Definition authorized (env : Env) (queryKey : option jsstring) : Prop :=
  ∃ key, key ≠ [] ∧ MANUAL_TRIGGER_KEY env = Some key ∧ queryKey = Some key.

End Vocabulary.

(* ------------------------------------------------------------------ *)
(** ** More sample data *)

Module Samples.
Import Examples Client.

(** A second included user with the id of [user1]. *)
Definition user1b : User :=
  {| u_id := str "user1"; u_name := str "User One (new)";
     u_username := str "user_one_new" |}.

Definition postA1b : ProcessedTweet :=
  processed (str "1") (str "Learning Ruby today") user1b 2.

Definition postT2 : ProcessedTweet :=
  processed (str "12") (str "Tweet 2") user2 7.

Definition twoKeywords : list KeywordEntry :=
  [keyword (str "#Rails") None; keyword (str "Hono Framework") None].

(** The second term is blank: two spaces. *)
Definition blankSecond : list KeywordEntry :=
  [keyword (str "#Rails") (Some 5); keyword (str "  ") None;
   keyword (str "#Ruby") (Some (-1))].

(** The message of the TypeError that the V8 engine throws for
    [null.errors]. *)
Definition nullMemberMessage : jsstring :=
  str "Cannot read properties of null (reading 'errors')".

(** An error response whose body is [null]. *)
Definition nullBodyResponse (statusCode : Z) : HttpResponse :=
  {| status := statusCode; json_search := inl [];
     error_data := JsonNull nullMemberMessage |}.

Definition versionZero : KeywordConfig :=
  {| version := 0; global_settings := ja; keywords := twoKeywords |}.

Definition jobParams : SearchParams :=
  {| query := str "(#Rails OR " ++ [DQUOTE] ++ str "Hono Framework" ++ [DQUOTE]
              ++ str ") -is:retweet lang:ja";
     start_time := str "2026-02-09T08:00:00.000Z";
     sp_max_results := 50;
     tweet_fields := str "created_at,public_metrics,author_id";
     user_fields := str "username,name";
     expansions := str "author_id" |}.

End Samples.

(* ================================================================== *)
(** * Properties *)

(** ** Lists: sorting by a key, slicing, filtering *)

Section SortByKey.
Context {A : Type} (key : A → Z).

(** The comparator [(a, b) => key(b) - key(a)]. *)
Let cmp (a b : A) : Z := key b - key a.

(** Descending order on the key. *)
Let descending (a b : A) : Prop := key b ≤ key a.

Lemma sort_insert_perm x l : sort_insert cmp x l ≡ₚ x :: l.
Proof.
  induction l as [|y l IH]; simpl; [done|].
  case_decide; [done|]. rewrite IH. apply Permutation_swap.
Qed.

Lemma sort_perm l : sort cmp l ≡ₚ l.
Proof.
  induction l as [|x l IH]; simpl; [done|].
  rewrite sort_insert_perm. by rewrite IH.
Qed.

Lemma sort_insert_sorted x l :
  StronglySorted descending l → StronglySorted descending (sort_insert cmp x l).
Proof.
  unfold descending.
  induction 1 as [|y l Hs IH Hy]; simpl.
  - repeat constructor.
  - case_decide as Hc; unfold cmp in Hc.
    + constructor; [by constructor|].
      constructor; [lia|].
      eapply Forall_impl; [exact Hy|]. simpl. intros z Hz. lia.
    + constructor; [exact IH|].
      rewrite sort_insert_perm. constructor; [lia | exact Hy].
Qed.

Lemma sort_sorted l : StronglySorted descending (sort cmp l).
Proof.
  induction l as [|x l IH]; simpl; [constructor|].
  by apply sort_insert_sorted.
Qed.

(** An element is inserted in front of every element with its key. *)
Lemma sort_insert_filter_key k x l :
  StronglySorted descending l →
  filter (λ a, key a = k) (sort_insert cmp x l)
  = filter (λ a, key a = k) (x :: l).
Proof.
  unfold descending.
  induction 1 as [|y l Hs IH Hy]; simpl; [done|].
  case_decide as Hc; unfold cmp in Hc; [done|].
  rewrite (filter_cons _ y), IH, !filter_cons.
  destruct (decide (key y = k)) as [Hyk|Hyk];
    destruct (decide (key x = k)) as [Hxk|Hxk]; try done.
  lia.
Qed.

Lemma sort_filter_key k l :
  filter (λ a, key a = k) (sort cmp l) = filter (λ a, key a = k) l.
Proof.
  induction l as [|x l IH]; simpl; [done|].
  rewrite sort_insert_filter_key by apply sort_sorted.
  by rewrite !filter_cons, IH.
Qed.

(** A list sorted on the key is determined by its posts of each key,
    taken in order: whatever stable sort an engine runs, it returns
    [sort cmp l]. *)
Lemma sorted_by_key_unique l1 l2 :
  StronglySorted descending l1 → StronglySorted descending l2 →
  (∀ k, filter (λ a, key a = k) l1 = filter (λ a, key a = k) l2) →
  l1 = l2.
Proof.
  unfold descending. intros Hs1. revert l2.
  induction Hs1 as [|x l1 Hs1 IH Hx]; intros l2 Hs2 Hf.
  - destruct l2 as [|y l2]; [done|].
    specialize (Hf (key y)). rewrite filter_nil, filter_cons in Hf.
    by rewrite decide_True in Hf.
  - destruct Hs2 as [|y l2 Hs2 Hy].
    + specialize (Hf (key x)). rewrite filter_nil, filter_cons in Hf.
      by rewrite decide_True in Hf.
    + assert (key x = key y) as Hk.
      { pose proof (Hf (key x)) as Hfx. pose proof (Hf (key y)) as Hfy.
        rewrite !filter_cons in Hfx, Hfy.
        rewrite (decide_True (P := key x = key x)) in Hfx by done.
        rewrite (decide_True (P := key y = key y)) in Hfy by done.
        destruct (decide (key y = key x)) as [|Hne]; [done|].
        rewrite (decide_False (P := key x = key y)) in Hfy by done.
        assert (x ∈ filter (λ a, key a = key x) l2) as Hin1
          by (rewrite <- Hfx; left).
        assert (y ∈ filter (λ a, key a = key y) l1) as Hin2
          by (rewrite Hfy; left).
        apply list_elem_of_filter in Hin1 as [_ Hin1].
        apply list_elem_of_filter in Hin2 as [_ Hin2].
        rewrite Forall_forall in Hx, Hy.
        apply Hx in Hin2. apply Hy in Hin1. lia. }
      assert (x = y) as ->.
      { specialize (Hf (key x)). rewrite !filter_cons in Hf.
        rewrite decide_True in Hf by done.
        rewrite decide_True in Hf by done. by injection Hf. }
      f_equal. apply IH; [done|]. intros k. specialize (Hf k).
      rewrite !filter_cons in Hf. case_decide; [by injection Hf | done].
Qed.

Lemma sort_unique l l' :
  StronglySorted descending l' →
  (∀ k, filter (λ a, key a = k) l' = filter (λ a, key a = k) l) →
  l' = sort cmp l.
Proof.
  intros Hs Hf. apply sorted_by_key_unique; [done | apply sort_sorted |].
  intros k. by rewrite Hf, sort_filter_key.
Qed.

End SortByKey.

Section ListFacts.
Context {A : Type}.
Implicit Types l : list A.

Lemma slice0_take l e : ∃ n, slice0 l e = take n l.
Proof. unfold slice0. eauto. Qed.

Lemma slice0_nonneg l e :
  0 ≤ e → slice0 l e = take (Z.to_nat e) l.
Proof.
  intros He. unfold slice0.
  destruct (Z.ltb_spec e 0) as [?|_]; [lia|].
  destruct (Z.min_spec e (Z.of_nat (length l))) as [[? ->]|[? ->]]; [done|].
  rewrite Nat2Z.id, firstn_all. symmetry. apply take_ge. lia.
Qed.

Lemma slice0_prefix l e : slice0 l e `prefix_of` l.
Proof. destruct (slice0_take l e) as [n ->]. apply prefix_take. Qed.

Lemma slice0_sublist l e : slice0 l e `sublist_of` l.
Proof. destruct (slice0_take l e) as [n ->]. apply sublist_take. Qed.

Lemma prefix_filter (P : A → Prop) `{!∀ x, Decision (P x)} l1 l2 :
  l1 `prefix_of` l2 → filter P l1 `prefix_of` filter P l2.
Proof. intros [k ->]. rewrite filter_app. by apply prefix_app_r. Qed.

Lemma prefix_sublist l1 l2 : l1 `prefix_of` l2 → l1 `sublist_of` l2.
Proof. intros [k ->]. by apply sublist_inserts_r. Qed.

Lemma sublist_filter_mono (P : A → Prop) `{!∀ x, Decision (P x)} l1 l2 :
  l1 `sublist_of` l2 → filter P l1 `sublist_of` filter P l2.
Proof.
  induction 1 as [|x l1 l2 _ IH|x l1 l2 _ IH]; [done|..];
    rewrite ?filter_cons; case_decide;
    auto using sublist_skip, sublist_cons.
Qed.

Lemma StronglySorted_prefix (R : relation A) l1 l2 :
  l1 `prefix_of` l2 → StronglySorted R l2 → StronglySorted R l1.
Proof. intros [k ->]. apply StronglySorted_app_1_l. Qed.

(** A place in [filter P l] is a place in [l], and what is before it
    in the one is the filter of what is before it in the other. *)
Lemma filter_app_cons_inv (P : A → Prop) `{!∀ x, Decision (P x)} l l1 a l2 :
  filter P l = l1 ++ a :: l2 →
  ∃ m1 m2, l = m1 ++ a :: m2 ∧ filter P m1 = l1.
Proof.
  revert l1. induction l as [|x l IH]; intros l1 Hl.
  - by destruct l1.
  - rewrite filter_cons in Hl. case_decide as Hx.
    + destruct l1 as [|z l1]; simpl in Hl.
      * injection Hl as -> _. by exists [], l.
      * injection Hl as <- Hl.
        destruct (IH _ Hl) as (m1 & m2 & -> & Hm).
        exists (x :: m1), m2. split; [done|].
        rewrite filter_cons, decide_True by done. by rewrite Hm.
    + destruct (IH _ Hl) as (m1 & m2 & -> & Hm).
      exists (x :: m1), m2. split; [done|].
      by rewrite filter_cons, decide_False.
Qed.

(** The same for [omap]. *)
Lemma omap_app_cons_inv {B} (f : A → option B) l (m1 : list B) b m2 :
  omap f l = m1 ++ b :: m2 →
  ∃ l1 a l2, l = l1 ++ a :: l2 ∧ f a = Some b ∧ omap f l1 = m1.
Proof.
  revert m1. induction l as [|x l IH]; intros m1 Hl.
  - by destruct m1.
  - csimpl in Hl. destruct (f x) as [y|] eqn:Hx.
    + destruct m1 as [|z m1]; simpl in Hl.
      * injection Hl as -> _. by exists [], x, l.
      * injection Hl as <- Hl.
        destruct (IH _ Hl) as (l1 & a & l2 & -> & Ha & Hm).
        exists (x :: l1), a, l2. split; [done|]. split; [done|].
        csimpl. by rewrite Hx, Hm.
    + destruct (IH _ Hl) as (l1 & a & l2 & -> & Ha & Hm).
      exists (x :: l1), a, l2. split; [done|]. split; [done|].
      csimpl. by rewrite Hx.
Qed.

End ListFacts.

(** ** The tweet processor *)

Module ProcessorFacts.
Import Processor.

(** *** Author lookup *)

Lemma foldl_insert_lookup (us : list User) (m : gmap jsstring User) k :
  foldl (λ m user, <[u_id user := user]> m) m us !! k
  = match last (filter (λ user, u_id user = k) us) with
    | Some user => Some user
    | None => m !! k
    end.
Proof.
  revert m. induction us as [|u us IH]; intros m; simpl; [done|].
  rewrite IH, filter_cons. destruct (decide (u_id u = k)) as [<-|Hne].
  - rewrite lookup_insert_eq.
    destruct (filter _ us) as [|u' l] eqn:E; [done|].
    change (last (u :: u' :: l)) with (last (u' :: l)).
    destruct (last (u' :: l)) eqn:El; [done|].
    by apply last_None in El.
  - by rewrite lookup_insert_ne.
Qed.

(** The map answers with the last listed user of that id. *)
Lemma createUserMap_lookup us k :
  createUserMap us !! k = last (filter (λ user, u_id user = k) us).
Proof.
  unfold createUserMap. rewrite foldl_insert_lookup, lookup_empty.
  by destruct (last _).
Qed.

Lemma createUserMap_Some us k user :
  createUserMap us !! k = Some user → user ∈ us ∧ u_id user = k.
Proof.
  rewrite createUserMap_lookup. intros H.
  assert (user ∈ filter (λ user, u_id user = k) us) as Hin.
  { apply last_Some in H as [l' ->]. set_solver. }
  apply list_elem_of_filter in Hin. tauto.
Qed.

Lemma createUserMap_None us k :
  createUserMap us !! k = None ↔ ∀ user, user ∈ us → u_id user ≠ k.
Proof.
  rewrite createUserMap_lookup, last_None. split.
  - intros H user Hin Hk.
    assert (user ∈ filter (λ user, u_id user = k) us) as Hf
      by (by apply list_elem_of_filter).
    rewrite H in Hf. by apply not_elem_of_nil in Hf.
  - intros H. apply elem_of_nil_inv. intros user Hin.
    apply list_elem_of_filter in Hin as [Hk Hin]. by apply (H user).
Qed.

(** *** Deduplication *)

Lemma foldl_dedupStep seen acc tweets :
  (foldl dedupStep (seen, acc) tweets).2 = acc ++ dedupFrom seen tweets.
Proof.
  revert seen acc. induction tweets as [|t ts IH]; intros seen acc; simpl.
  - by rewrite app_nil_r.
  - unfold dedupStep at 2. simpl. case_decide.
    + apply IH.
    + rewrite IH. by rewrite <- app_assoc.
Qed.

Lemma removeDuplicates_dedupFrom tweets :
  removeDuplicates tweets = dedupFrom ∅ tweets.
Proof. unfold removeDuplicates. by rewrite foldl_dedupStep. Qed.

Lemma dedupFrom_sublist seen tweets : dedupFrom seen tweets `sublist_of` tweets.
Proof.
  revert seen. induction tweets as [|t ts IH]; intros seen; simpl; [done|].
  case_decide; [by apply sublist_cons | by apply sublist_skip].
Qed.

Lemma dedupFrom_fresh seen tweets t :
  t ∈ dedupFrom seen tweets → dedupKey t ∉ seen.
Proof.
  revert seen. induction tweets as [|t' ts IH]; intros seen; simpl.
  - by intros ?%elem_of_nil.
  - case_decide as Hk.
    + apply IH.
    + intros [->|Hin]%elem_of_cons; [done|].
      apply IH in Hin. set_solver.
Qed.

Lemma dedupFrom_NoDup seen tweets :
  NoDup (dedupKey <$> dedupFrom seen tweets).
Proof.
  revert seen. induction tweets as [|t ts IH]; intros seen; simpl.
  - constructor.
  - case_decide as Hk; [apply IH|].
    rewrite fmap_cons. constructor; [|apply IH].
    intros (t' & Heq & Hin)%list_elem_of_fmap.
    apply dedupFrom_fresh in Hin. set_solver.
Qed.

(** A survivor stands in the input behind posts of other keys only. *)
Lemma dedupFrom_first seen tweets t :
  t ∈ dedupFrom seen tweets →
  ∃ l1 l2, tweets = l1 ++ t :: l2 ∧ ∀ b, b ∈ l1 → dedupKey b ≠ dedupKey t.
Proof.
  revert seen. induction tweets as [|t' ts IH]; intros seen; simpl.
  - by intros ?%elem_of_nil.
  - case_decide as Hk.
    + intros Hin. pose proof (dedupFrom_fresh _ _ _ Hin) as Hfresh.
      destruct (IH _ Hin) as (l1 & l2 & -> & Hl1).
      exists (t' :: l1), l2. split; [done|].
      intros b [->|Hb]%elem_of_cons; [congruence | by apply Hl1].
    + intros [->|Hin]%elem_of_cons.
      * exists [], ts. split; [done|]. by intros b ?%elem_of_nil.
      * pose proof (dedupFrom_fresh _ _ _ Hin) as Hfresh.
        destruct (IH _ Hin) as (l1 & l2 & -> & Hl1).
        exists (t' :: l1), l2. split; [done|].
        intros b [->|Hb]%elem_of_cons; [set_solver | by apply Hl1].
Qed.

(** Every key keeps a survivor. *)
Lemma dedupFrom_complete seen tweets t :
  t ∈ tweets → dedupKey t ∉ seen →
  ∃ t', t' ∈ dedupFrom seen tweets ∧ dedupKey t' = dedupKey t.
Proof.
  revert seen. induction tweets as [|t' ts IH]; intros seen; simpl.
  - by intros ?%elem_of_nil.
  - intros [->|Hin]%elem_of_cons Hfresh.
    + rewrite decide_False by done. exists t'. split; [left|done].
    + case_decide as Hk; [by apply IH|].
      destruct (decide (dedupKey t = dedupKey t')) as [Heq|Hne].
      * exists t'. split; [left|done].
      * assert (dedupKey t ∉ {[dedupKey t']} ∪ seen) as Hfresh'
          by (rewrite not_elem_of_union, not_elem_of_singleton; done).
        destruct (IH _ Hin Hfresh') as (t'' & Hin'' & Hkey).
        exists t''. split; [by right|done].
Qed.

(** *** The pipeline *)

Lemma processTweets_pipeline response minLikes displayLimit :
  processTweets response minLikes displayLimit
  = slice0 (sortByLikes (deduplicatedStage response minLikes)) displayLimit.
Proof.
  unfold processTweets. case_decide as Hlen; [|done].
  apply nil_length_inv in Hlen.
  unfold deduplicatedStage, filteredStage, processedStage. rewrite Hlen.
  simpl. unfold slice0. by rewrite take_nil.
Qed.

Lemma processTweets_prefix response minLikes displayLimit :
  processTweets response minLikes displayLimit
  `prefix_of` sortByLikes (deduplicatedStage response minLikes).
Proof. rewrite processTweets_pipeline. apply slice0_prefix. Qed.

Lemma sortByLikes_perm tweets : sortByLikes tweets ≡ₚ tweets.
Proof. apply sort_perm. Qed.

Lemma processTweets_elem_of response minLikes displayLimit p :
  p ∈ processTweets response minLikes displayLimit →
  p ∈ deduplicatedStage response minLikes.
Proof.
  intros Hin. rewrite <- (sortByLikes_perm (deduplicatedStage _ _)).
  eapply sublist_subseteq; [|exact Hin].
  apply prefix_sublist, processTweets_prefix.
Qed.

Lemma deduplicatedStage_elem_of response minLikes p :
  p ∈ deduplicatedStage response minLikes → p ∈ filteredStage response minLikes.
Proof.
  unfold deduplicatedStage. rewrite removeDuplicates_dedupFrom.
  apply sublist_subseteq, dedupFrom_sublist.
Qed.

Lemma filteredStage_elem_of response minLikes p :
  p ∈ filteredStage response minLikes
  ↔ minLikes ≤ likes p ∧ p ∈ processedStage response.
Proof.
  unfold filteredStage, filterByLikes.
  apply (list_elem_of_filter (λ tweet, minLikes ≤ likes tweet)).
Qed.

(** *** Conversion *)

Lemma convert_Some tweet userMap p :
  convertToProcessedTweet tweet userMap = Some p →
  ∃ user, userMap !! t_author_id tweet = Some user ∧
    p = {| p_id := t_id tweet;
           p_text := t_text tweet;
           p_author := {| name := u_name user; username := u_username user |};
           p_created_at := t_created_at tweet;
           likes := like_count (t_public_metrics tweet);
           retweets := retweet_count (t_public_metrics tweet);
           url := str "https://x.com/" ++ u_username user
                  ++ str "/status/" ++ t_id tweet |}.
Proof.
  unfold convertToProcessedTweet.
  destruct (userMap !! t_author_id tweet) as [user|]; [|done].
  intros [= <-]. by exists user.
Qed.

Lemma convert_None tweet us :
  convertToProcessedTweet tweet (createUserMap us) = None
  ↔ ∀ user, user ∈ us → u_id user ≠ t_author_id tweet.
Proof.
  rewrite <- createUserMap_None. unfold convertToProcessedTweet.
  by destruct (createUserMap us !! t_author_id tweet).
Qed.

Lemma convert_resolvable tweet us :
  t_author_id tweet ∈ u_id <$> us →
  ∃ p, convertToProcessedTweet tweet (createUserMap us) = Some p
       ∧ likes p = like_count (t_public_metrics tweet)
       ∧ dedupKey p = trim (take 100 (t_text tweet)).
Proof.
  intros (user & Hid & Hin)%list_elem_of_fmap.
  destruct (convertToProcessedTweet tweet (createUserMap us)) as [p|] eqn:E.
  - exists p. split; [done|].
    apply convert_Some in E as (user' & _ & ->). done.
  - exfalso. eapply convert_None; eauto.
Qed.

Lemma processedStage_elem_of response p :
  p ∈ processedStage response
  ↔ ∃ tweet, tweet ∈ responseTweets response
      ∧ convertToProcessedTweet tweet
          (createUserMap (responseUsers response)) = Some p.
Proof. unfold processedStage. apply list_elem_of_omap. Qed.

(** *** The claims on [processTweets] *)

(** C9.  Every post of the output has at least [minLikes] likes, for
    every [minLikes] (the non-negative ones among them).  The bound is
    inclusive: the quality filter keeps exactly the posts with
    [minLikes ≤ likes], so a post with [likes = minLikes] passes it, and
    with [minLikes = 0] a post without likes passes it; a response of
    one post with exactly [minLikes] likes and a resolvable author comes
    out as that post. *)
Theorem output_at_least_min_likes response minLikes displayLimit :
  (∀ p, p ∈ processTweets response minLikes displayLimit → minLikes ≤ likes p)
  ∧ (∀ tweets p, p ∈ filterByLikes tweets minLikes
                 ↔ p ∈ tweets ∧ minLikes ≤ likes p)
  ∧ (∀ tweets p, p ∈ tweets → likes p = minLikes →
                 p ∈ filterByLikes tweets minLikes)
  ∧ (∀ tweets p, p ∈ tweets → likes p = 0 → p ∈ filterByLikes tweets 0)
  ∧ (∀ tweet user mt errs,
       u_id user = t_author_id tweet →
       like_count (t_public_metrics tweet) = minLikes →
       1 ≤ displayLimit →
       ∃ p, likes p = minLikes ∧ p_id p = t_id tweet
            ∧ processTweets {| data := Some [tweet];
                               includes := Some {| users := Some [user] |};
                               meta := mt; errors := errs |}
                            minLikes displayLimit = [p]).
Proof.
  assert (∀ m tweets p, p ∈ filterByLikes tweets m ↔ p ∈ tweets ∧ m ≤ likes p)
    as Hfilter.
  { intros m tweets p. unfold filterByLikes.
    rewrite (list_elem_of_filter (λ tweet, m ≤ likes tweet)). tauto. }
  split; [|split; [|split; [|split]]].
  - intros p Hin.
    apply processTweets_elem_of, deduplicatedStage_elem_of in Hin.
    by apply filteredStage_elem_of in Hin as [? _].
  - apply Hfilter.
  - intros tweets p Hin Heq. apply Hfilter. split; [done|lia].
  - intros tweets p Hin Heq. apply Hfilter. split; [done|lia].
  - intros tweet user mt errs Hid Hlikes Hlimit.
    destruct (convert_resolvable tweet [user]) as (p & Hconv & Hp & _).
    { rewrite <- Hid. apply list_elem_of_here. }
    exists p. split; [congruence|]. split.
    { by apply convert_Some in Hconv as (? & _ & ->). }
    rewrite processTweets_pipeline.
    unfold deduplicatedStage, filteredStage, processedStage.
    unfold responseTweets, responseUsers. simpl. rewrite Hconv.
    unfold filterByLikes. rewrite filter_cons, filter_nil.
    rewrite decide_True by lia.
    rewrite removeDuplicates_dedupFrom. simpl.
    rewrite decide_False by apply not_elem_of_empty.
    unfold sortByLikes, sort. simpl.
    rewrite slice0_nonneg by lia.
    destruct (Z.to_nat displayLimit) as [|n] eqn:E; [lia|]. simpl.
    by rewrite take_nil.
Qed.

(** C6.  The output is sorted by likes, descending, and the sort is
    stable: two output posts with equal likes, one in front of the
    other, stand in that order in the deduplicated sequence the sort
    received; the output posts with [k] likes are the first ones of
    those of that sequence, in its order. *)
Theorem output_sorted_stable response minLikes displayLimit :
  let out := processTweets response minLikes displayLimit in
  let pre := deduplicatedStage response minLikes in
  StronglySorted (λ a b, likes b ≤ likes a) out
  ∧ (∀ a b, [a; b] `sublist_of` out → likes a = likes b →
            [a; b] `sublist_of` pre)
  ∧ (∀ k, filter (λ p, likes p = k) out
          `prefix_of` filter (λ p, likes p = k) pre).
Proof.
  intros out pre.
  pose proof (processTweets_prefix response minLikes displayLimit) as Hpre.
  fold out pre in Hpre.
  assert (∀ k, filter (λ p, likes p = k) out
               `prefix_of` filter (λ p, likes p = k) pre) as Hstable.
  { intros k. unfold sortByLikes in Hpre.
    rewrite <- (sort_filter_key likes k pre). by apply prefix_filter. }
  split; [|split; [|exact Hstable]].
  - eapply StronglySorted_prefix; [exact Hpre|]. apply (sort_sorted likes).
  - intros a b Hab Heq.
    transitivity (filter (λ p, likes p = likes a) pre);
      [|apply sublist_filter].
    transitivity (filter (λ p, likes p = likes a) out);
      [|apply prefix_sublist, Hstable].
    apply (sublist_filter_mono (λ p, likes p = likes a)) in Hab.
    rewrite !filter_cons, filter_nil in Hab.
    rewrite !decide_True in Hab by done. exact Hab.
Qed.

(** C5.  The dedup key of a post is the first 100 code units of its
    text, trimmed of surrounding whitespace.  No two output posts
    share it: two positions of the output whose posts have equal keys
    are one position.  And each output post is the first of its key in
    the filtered sequence that deduplication received: every post
    before it there has another key, whatever the like counts.  That
    sequence is in the order of the response: the output post is the
    conversion of a raw post, and every raw post before that one whose
    conversion has at least [minLikes] likes has another key. *)
Theorem output_dedup_first response minLikes displayLimit :
  let out := processTweets response minLikes displayLimit in
  let userMap := createUserMap (default [] (includes response ≫= users)) in
  (∀ i j a b, out !! i = Some a → out !! j = Some b →
              trim (take 100 (p_text a)) = trim (take 100 (p_text b)) →
              i = j)
  ∧ (∀ a, a ∈ out →
       ∃ l1 l2, filteredStage response minLikes = l1 ++ a :: l2
                ∧ ∀ b, b ∈ l1 →
                    trim (take 100 (p_text b)) ≠ trim (take 100 (p_text a)))
  ∧ (∀ a, a ∈ out →
       ∃ r1 t r2,
         default [] (data response) = r1 ++ t :: r2
         ∧ convertToProcessedTweet t userMap = Some a
         ∧ ∀ t' b, t' ∈ r1 →
             convertToProcessedTweet t' userMap = Some b →
             minLikes ≤ likes b →
             trim (take 100 (p_text b)) ≠ trim (take 100 (p_text a))).
Proof.
  intros out userMap.
  assert (∀ a, a ∈ out →
            ∃ l1 l2, filteredStage response minLikes = l1 ++ a :: l2
                     ∧ ∀ b, b ∈ l1 → dedupKey b ≠ dedupKey a) as Hfirst.
  { intros a Ha. apply processTweets_elem_of in Ha.
    unfold deduplicatedStage in Ha. rewrite removeDuplicates_dedupFrom in Ha.
    by apply dedupFrom_first in Ha. }
  split; [|split].
  - assert (NoDup (dedupKey <$> out)) as Hnd.
    { apply (sublist_NoDup _
               (dedupKey <$> sortByLikes (deduplicatedStage response minLikes))).
      - rewrite sortByLikes_perm. unfold deduplicatedStage.
        rewrite removeDuplicates_dedupFrom. apply dedupFrom_NoDup.
      - apply fmap_sublist, prefix_sublist, processTweets_prefix. }
    intros i j a b Hi Hj Hkey. change (dedupKey a = dedupKey b) in Hkey.
    eapply NoDup_lookup; [exact Hnd|..].
    + rewrite list_lookup_fmap, Hi. reflexivity.
    + rewrite list_lookup_fmap, Hj. simpl. by rewrite Hkey.
  - exact Hfirst.
  - intros a Ha.
    destruct (Hfirst a Ha) as (l1 & l2 & Hfiltered & Hl1).
    unfold filteredStage, filterByLikes in Hfiltered.
    apply filter_app_cons_inv in Hfiltered as (m1 & m2 & Hprocessed & Hm1).
    unfold processedStage in Hprocessed.
    apply omap_app_cons_inv in Hprocessed as (r1 & t & r2 & Hraw & Ht & Hr1).
    exists r1, t, r2. split; [exact Hraw|]. split; [exact Ht|].
    intros t' b Ht' Hb Hlikes. apply (Hl1 b). rewrite <- Hm1.
    apply list_elem_of_filter. split; [done|]. rewrite <- Hr1.
    apply list_elem_of_omap. by exists t'.
Qed.

(** C8.  Every output post is built from a raw post of the response
    and a user of its included-users set with the post's [author_id];
    a raw post without such a user converts to nothing, and the
    converted posts are exactly the conversions that succeed.  Without
    [includes.users], and without [data] or with an empty one, the
    output is the empty list. *)
Theorem output_authors_resolved response minLikes displayLimit :
  (∀ p, p ∈ processTweets response minLikes displayLimit →
     ∃ tweet user,
       tweet ∈ default [] (data response)
       ∧ user ∈ default [] (includes response ≫= users)
       ∧ u_id user = t_author_id tweet
       ∧ p = {| p_id := t_id tweet;
                p_text := t_text tweet;
                p_author := {| name := u_name user;
                               username := u_username user |};
                p_created_at := t_created_at tweet;
                likes := like_count (t_public_metrics tweet);
                retweets := retweet_count (t_public_metrics tweet);
                url := str "https://x.com/" ++ u_username user
                       ++ str "/status/" ++ t_id tweet |})
  ∧ (∀ tweet,
       (∀ user, user ∈ default [] (includes response ≫= users) →
                u_id user ≠ t_author_id tweet) →
       convertToProcessedTweet tweet
         (createUserMap (default [] (includes response ≫= users))) = None)
  ∧ (∀ p, p ∈ processedStage response ↔
          ∃ tweet, tweet ∈ default [] (data response)
            ∧ convertToProcessedTweet tweet
                (createUserMap (default [] (includes response ≫= users)))
              = Some p)
  ∧ (includes response ≫= users = None →
     processTweets response minLikes displayLimit = [])
  ∧ (data response = None ∨ data response = Some [] →
     processTweets response minLikes displayLimit = []).
Proof.
  split; [|split; [|split; [|split]]].
  - intros p Hin.
    apply processTweets_elem_of, deduplicatedStage_elem_of in Hin.
    apply filteredStage_elem_of in Hin as [_ Hin].
    apply processedStage_elem_of in Hin as (tweet & Htweet & Hconv).
    apply convert_Some in Hconv as (user & Hlookup & ->).
    apply createUserMap_Some in Hlookup as [Huser Hid].
    by exists tweet, user.
  - intros tweet Hnone. by apply convert_None.
  - apply processedStage_elem_of.
  - intros Hnone. rewrite processTweets_pipeline.
    assert (processedStage response = []) as Hnil.
    { apply elem_of_nil_inv. intros p.
      rewrite processedStage_elem_of. intros (tweet & _ & Hconv).
      unfold responseUsers in Hconv. rewrite Hnone in Hconv. done. }
    unfold deduplicatedStage, filteredStage. rewrite Hnil.
    unfold slice0. simpl. by rewrite take_nil.
  - intros Hdata. unfold processTweets, responseTweets.
    by destruct Hdata as [-> | ->].
Qed.

(** C3.  Scenario A: four posts with resolvable authors and likes
    2, 10, 10, 5 in response order, the two posts with 10 likes
    having the same dedup key and the last post another one.  With
    [minLikes = 3] and [displayLimit = 10] the output is the first of
    the two 10-like posts followed by the 5-like post. *)
Theorem scenario_A (t1 t2 t3 t4 : Tweet) (us : list User)
    (mt : Meta) (errs : option (list XApiError)) :
  Forall (λ t, t_author_id t ∈ u_id <$> us) [t1; t2; t3; t4] →
  (λ t, like_count (t_public_metrics t)) <$> [t1; t2; t3; t4] = [2; 10; 10; 5] →
  trim (take 100 (t_text t2)) = trim (take 100 (t_text t3)) →
  trim (take 100 (t_text t4)) ≠ trim (take 100 (t_text t2)) →
  ∃ p2 p4,
    convertToProcessedTweet t2 (createUserMap us) = Some p2
    ∧ convertToProcessedTweet t4 (createUserMap us) = Some p4
    ∧ processTweets {| data := Some [t1; t2; t3; t4];
                       includes := Some {| users := Some us |};
                       meta := mt; errors := errs |} 3 10
      = [p2; p4].
Proof.
  intros Hres Hlikes Hdup Hother.
  apply Forall_cons in Hres as [H1 Hres]. apply Forall_cons in Hres as [H2 Hres].
  apply Forall_cons in Hres as [H3 Hres]. apply Forall_cons in Hres as [H4 _].
  injection Hlikes as L1 L2 L3 L4.
  apply convert_resolvable in H1 as (p1 & C1 & Lp1 & _).
  apply convert_resolvable in H2 as (p2 & C2 & Lp2 & K2).
  apply convert_resolvable in H3 as (p3 & C3 & Lp3 & K3).
  apply convert_resolvable in H4 as (p4 & C4 & Lp4 & K4).
  exists p2, p4. split; [done|]. split; [done|].
  rewrite processTweets_pipeline.
  unfold deduplicatedStage, filteredStage, processedStage.
  unfold responseTweets, responseUsers. simpl.
  rewrite C1, C2, C3, C4. unfold filterByLikes.
  rewrite !filter_cons, filter_nil.
  rewrite decide_False by lia. rewrite !decide_True by lia.
  rewrite removeDuplicates_dedupFrom. simpl.
  assert (dedupKey p3 = dedupKey p2) as K32 by congruence.
  assert (dedupKey p4 ≠ dedupKey p2) as K42 by congruence.
  rewrite (decide_False (P := dedupKey p2 ∈ _)) by set_solver.
  rewrite (decide_True (P := dedupKey p3 ∈ _)) by set_solver.
  rewrite (decide_False (P := dedupKey p4 ∈ _))
    by (rewrite elem_of_union, elem_of_singleton, elem_of_empty; tauto).
  unfold sortByLikes, sort. simpl.
  rewrite decide_True by lia. done.
Qed.

(** *** The claims at the sample data *)

Import Examples.

Example scenarioA_output : processTweets scenarioA 3 10 = [postA2; postA4].
Proof. vm_compute. reflexivity. Qed.

Example tied_output : processTweets tied 0 10
  = [processed (str "12") (str "Tweet 2") user2 7; postT1; postT3].
Proof. vm_compute. reflexivity. Qed.

Lemma scenario_A_witness : processTweets scenarioA 3 10 = [postA2; postA4].
Proof.
  destruct (scenario_A tweetA1 tweetA2 tweetA3 tweetA4 [user1; user2]
              (metaOf 4) None) as (p2 & p4 & C2 & C4 & Hout).
  - repeat apply Forall_cons_2; [compute_done.. | apply Forall_nil_2].
  - reflexivity.
  - vm_compute. reflexivity.
  - compute_done.
  - vm_compute in C2, C4. injection C2 as <-. injection C4 as <-. exact Hout.
Defined.

Lemma output_at_least_min_likes_witness : 3 ≤ likes postA4.
Proof.
  apply (proj1 (output_at_least_min_likes scenarioA 3 10)).
  rewrite scenarioA_output. apply list_elem_of_further, list_elem_of_here.
Defined.

Lemma output_sorted_stable_witness :
  [postT1; postT3] `sublist_of` deduplicatedStage tied 0.
Proof.
  apply (proj1 (proj2 (output_sorted_stable tied 0 10))).
  - rewrite tied_output. apply sublist_cons, sublist_skip, sublist_skip, sublist_nil.
  - reflexivity.
Defined.

Lemma output_dedup_first_witness :
  ∃ l1 l2, filteredStage scenarioA 3 = l1 ++ postA2 :: l2
           ∧ ∀ b, b ∈ l1 →
               trim (take 100 (p_text b)) ≠ trim (take 100 (p_text postA2)).
Proof.
  apply (proj1 (proj2 (output_dedup_first scenarioA 3 10))).
  rewrite scenarioA_output. apply list_elem_of_here.
Defined.

Lemma output_authors_resolved_witness :
  ∃ tweet user,
    tweet ∈ [tweetA1; tweetA2; tweetA3; tweetA4]
    ∧ user ∈ [user1; user2]
    ∧ u_id user = t_author_id tweet
    ∧ postA4 = {| p_id := t_id tweet;
                  p_text := t_text tweet;
                  p_author := {| name := u_name user;
                                 username := u_username user |};
                  p_created_at := t_created_at tweet;
                  likes := like_count (t_public_metrics tweet);
                  retweets := retweet_count (t_public_metrics tweet);
                  url := str "https://x.com/" ++ u_username user
                         ++ str "/status/" ++ t_id tweet |}.
Proof.
  apply (proj1 (output_authors_resolved scenarioA 3 10)).
  rewrite scenarioA_output. apply list_elem_of_further, list_elem_of_here.
Defined.

End ProcessorFacts.

(** ** The query builder *)

Module QueryBuilderFacts.
Import QueryBuilder.

Lemma fullQuery_format keywords settings :
  fullQuery keywords settings
  = str "(" ++ join (str " OR ") (keywordTerm <$> keywords)
    ++ str ") -is:retweet lang:" ++ lang settings.
Proof.
  unfold fullQuery, BASE_CONDITIONS.
  rewrite <- !app_assoc. reflexivity.
Qed.

Lemma keywordTerm_spec k :
  (SPACE ∈ term k → keywordTerm k = [DQUOTE] ++ term k ++ [DQUOTE])
  ∧ (SPACE ∉ term k → keywordTerm k = term k).
Proof. unfold keywordTerm. split; intros H; by case_decide. Qed.

Lemma buildSearchQueries_nonempty keywords settings :
  keywords ≠ [] →
  buildSearchQueries keywords settings
  = if decide (length (fullQuery keywords settings) ≤ 1024)%nat
    then inr [fullQuery keywords settings]
    else inl (QueryTooLongError (length (fullQuery keywords settings))).
Proof.
  intros Hne. unfold buildSearchQueries, QUERY_MAX_LENGTH.
  rewrite decide_False by (by intros ?%nil_length_inv).
  repeat case_decide; (done || lia).
Qed.

(** C4, amended.  For a non-empty keyword list the composed query is
    the parenthesised OR-group of the terms in input order, a term
    being wrapped in double quotes exactly when it contains a space
    character (U+0020), followed by [ -is:retweet lang:] and the
    language; the builder returns that one query unless it is longer
    than 1024 code units.  The terms [#Rails] and [Hono Framework]
    with language [ja] give
    [(#Rails OR "Hono Framework") -is:retweet lang:ja]. *)
Theorem query_format keywords settings :
  keywords ≠ [] →
  (∃ terms,
     Forall2 (λ k s, (SPACE ∈ term k → s = [DQUOTE] ++ term k ++ [DQUOTE])
                     ∧ (SPACE ∉ term k → s = term k)) keywords terms
     ∧ let q := str "(" ++ join (str " OR ") terms
                ++ str ") -is:retweet lang:" ++ lang settings in
       buildSearchQueries keywords settings
       = if decide (length q ≤ 1024)%nat then inr [q]
         else inl (QueryTooLongError (length q)))
  ∧ buildSearchQueries
      [ {| term := str "#Rails"; k_min_likes := None |};
        {| term := str "Hono Framework"; k_min_likes := None |} ]
      {| min_likes := 3; max_results := 50; lang := str "ja" |}
    = inr [ str "(#Rails OR " ++ [DQUOTE] ++ str "Hono Framework" ++ [DQUOTE]
            ++ str ") -is:retweet lang:ja" ].
Proof.
  intros Hne. split; [|reflexivity].
  exists (keywordTerm <$> keywords). split.
  - apply Forall2_fmap_r, Forall_Forall2_diag, Forall_forall.
    intros k _. apply keywordTerm_spec.
  - rewrite <- fullQuery_format.
    by apply buildSearchQueries_nonempty.
Qed.

(** C7.  For a non-empty keyword list the builder fails with the
    query-too-long error exactly when the composed query is longer
    than 1024 code units, and then returns no query; otherwise it
    returns exactly one query, the composed one.  A query of exactly
    1024 code units is returned, one of 1025 is refused, and so are
    100 keywords of 20 characters. *)
Theorem query_length_limit keywords settings :
  keywords ≠ [] →
  let q := str "(" ++ join (str " OR ") (keywordTerm <$> keywords)
           ++ str ") -is:retweet lang:" ++ lang settings in
  ((∃ n, buildSearchQueries keywords settings = inl (QueryTooLongError n))
     ↔ (1024 < length q)%nat)
  ∧ ((1024 < length q)%nat →
       buildSearchQueries keywords settings = inl (QueryTooLongError (length q))
       ∧ ∀ qs, buildSearchQueries keywords settings ≠ inr qs)
  ∧ ((length q ≤ 1024)%nat → buildSearchQueries keywords settings = inr [q])
  ∧ (∀ qs, buildSearchQueries keywords settings = inr qs → length qs = 1%nat)
  ∧ (let ja := {| min_likes := 3; max_results := 50; lang := str "ja" |} in
     let kw n := [ {| term := replicate n 97%N; k_min_likes := None |} ] in
     (∃ q1024, length q1024 = 1024%nat
               ∧ buildSearchQueries (kw 1002%nat) ja = inr [q1024])
     ∧ buildSearchQueries (kw 1003%nat) ja = inl (QueryTooLongError 1025)
     ∧ buildSearchQueries
         (replicate 100 {| term := str "VeryLongKeyword12345";
                           k_min_likes := None |}) ja
       = inl (QueryTooLongError 2418)).
Proof.
  intros Hne q.
  pose proof (buildSearchQueries_nonempty keywords settings Hne) as Hb.
  rewrite fullQuery_format in Hb. fold q in Hb.
  split; [|split; [|split; [|split]]].
  - rewrite Hb. case_decide; split.
    + by intros [n ?].
    + lia.
    + lia.
    + eauto.
  - intros Hlong. rewrite Hb, decide_False by lia. split; [done|].
    by intros qs.
  - intros Hshort. by rewrite Hb, decide_True.
  - intros qs. rewrite Hb. case_decide; [|done]. by intros [= <-].
  - simpl. split; [|split].
    + eexists. split; [|vm_compute; reflexivity]. vm_compute. reflexivity.
    + vm_compute. reflexivity.
    + vm_compute. reflexivity.
Qed.

(** *** The claims at the sample data *)

Import Examples.

(** C4 as stated does not hold: a term with a TAB contains a
    whitespace character and is left unquoted. *)
Lemma whitespace_term_unquoted :
  (∃ c, c ∈ tabbed ∧ is_whitespace c = true)
  ∧ buildSearchQueries [keyword tabbed None] ja
    = inr [str "(" ++ tabbed ++ str ") -is:retweet lang:ja"]
  ∧ buildSearchQueries [keyword tabbed None] ja
    ≠ inr [str "(" ++ [DQUOTE] ++ tabbed ++ [DQUOTE]
           ++ str ") -is:retweet lang:ja"].
Proof.
  split; [|split].
  - exists 9%N. split; [|reflexivity].
    apply list_elem_of_further, list_elem_of_here.
  - vm_compute. reflexivity.
  - vm_compute. discriminate.
Qed.

(** Scenario B of the specification. *)
Lemma query_format_witness :
  buildSearchQueries [keyword (str "#Rails") None] ja
  = inr [str "(#Rails) -is:retweet lang:ja"].
Proof.
  destruct (query_format [keyword (str "#Rails") None] ja)
    as [(terms & Hterms & Hquery) _]; [discriminate|].
  apply Forall2_cons_inv_l in Hterms as (s & terms' & [_ Hs] & Hnil & ->).
  apply Forall2_nil_inv_l in Hnil as ->.
  rewrite Hs in Hquery by compute_done.
  exact Hquery.
Defined.

Lemma query_length_limit_witness :
  buildSearchQueries [keyword (str "#Rails") None] ja
  = inr [str "(#Rails) -is:retweet lang:ja"].
Proof.
  destruct (query_length_limit [keyword (str "#Rails") None] ja)
    as (_ & _ & Hshort & _); [discriminate|].
  apply Hshort. vm_compute. lia.
Defined.

End QueryBuilderFacts.

(** ** The search client *)

Module ClientFacts.
Import Client.

Section Attempt.
Context (w : World) (client : XApiClient) (params : SearchParams).

(** The state after one request issued from [st]. *)
Let afterFetch (st : State) : State :=
  {| fetchCalls := S (fetchCalls st); postCalls := postCalls st;
     trace := trace st ++ [EvFetch (bearerToken client) params] |}.

Lemma searchRecentTweets_state st :
  (searchRecentTweets w client params st).2 = afterFetch st.
Proof.
  unfold searchRecentTweets, mbind, M_bind, fetchSearch. simpl.
  destruct (fetches w (fetchCalls st) (bearerToken client) params)
    as [| cause | response]; try done.
  destruct (handleErrorResponse response) as [error|]; [by destruct error|].
  by destruct (json_search response).
Qed.

Lemma searchRecentTweets_aborted st :
  fetches w (fetchCalls st) (bearerToken client) params = FetchAborted →
  searchRecentTweets w client params st
  = (inl (ClientError {| message := MsgTimeout; statusCode := 0;
                         error_details := [] |}), afterFetch st).
Proof.
  intros H. unfold searchRecentTweets, mbind, M_bind, fetchSearch.
  simpl. by rewrite H.
Qed.

(** An error response whose body is not [null]: the error carries the
    status and the [errors] member of the body, if there is one. *)
Lemma searchRecentTweets_error st response :
  fetches w (fetchCalls st) (bearerToken client) params = FetchResponse response →
  ¬ (200 ≤ status response ≤ 299) →
  ¬ Vocabulary.nullBody response →
  searchRecentTweets w client params st
  = (inl (ClientError {| message := errorMessage (status response);
                         statusCode := status response;
                         error_details :=
                           match error_data response with
                           | Json (Some errors) => errors
                           | _ => []
                           end |}),
     afterFetch st).
Proof.
  intros H Hnok Hbody. unfold searchRecentTweets, mbind, M_bind, fetchSearch.
  simpl. rewrite H. unfold handleErrorResponse, ok.
  rewrite bool_decide_false by done.
  unfold Vocabulary.nullBody in Hbody.
  destruct (error_data response) as [|cause|[errors|]]; simpl; done.
Qed.

(** An error response whose body is [null]: the TypeError of the member
    access becomes the status-0 error, whatever the status. *)
Lemma searchRecentTweets_null_body st response cause :
  fetches w (fetchCalls st) (bearerToken client) params = FetchResponse response →
  ¬ (200 ≤ status response ≤ 299) →
  error_data response = JsonNull cause →
  searchRecentTweets w client params st
  = (inl (ClientError {| message := MsgRequestFailed cause; statusCode := 0;
                         error_details := [] |}),
     afterFetch st).
Proof.
  intros H Hnok Hbody. unfold searchRecentTweets, mbind, M_bind, fetchSearch.
  simpl. rewrite H. unfold handleErrorResponse, ok.
  rewrite bool_decide_false by done. by rewrite Hbody.
Qed.

Lemma searchRecentTweets_ok st response payload :
  fetches w (fetchCalls st) (bearerToken client) params = FetchResponse response →
  200 ≤ status response ≤ 299 →
  json_search response = inr payload →
  searchRecentTweets w client params st = (inr payload, afterFetch st).
Proof.
  intros H Hok Hjson. unfold searchRecentTweets, mbind, M_bind, fetchSearch.
  simpl. rewrite H. unfold handleErrorResponse, ok.
  by rewrite bool_decide_true, Hjson.
Qed.



End Attempt.

(** C1, as the code has it.  A request that times out is not retried:
    whatever [maxRetries ≥ 0], [searchRecentTweetsWithRetry] issues the
    one request, does not sleep, and throws the status-0 timeout
    error. *)
Theorem timeout_not_retried w client params maxRetries retryDelay st :
  fetches w (fetchCalls st) (bearerToken client) params = FetchAborted →
  0 ≤ maxRetries →
  searchRecentTweetsWithRetry w client params maxRetries retryDelay st
  = (inl (ClientError {| message := MsgTimeout; statusCode := 0;
                         error_details := [] |}),
     {| fetchCalls := S (fetchCalls st); postCalls := postCalls st;
        trace := trace st ++ [EvFetch (bearerToken client) params] |}).
Proof.
  intros Habort Hmax. unfold searchRecentTweetsWithRetry.
  replace (Z.to_nat (maxRetries + 1)) with (S (Z.to_nat maxRetries)) by lia.
  simpl. unfold try_catch.
  rewrite (searchRecentTweets_aborted _ _ _ _ Habort).
  (* status 0 is not in the no-retry list and not in 500-599 *)
  cbn [statusCode].
  rewrite decide_False by (rewrite !elem_of_cons, elem_of_nil; lia).
  rewrite decide_False by lia. done.
Qed.


(** *** The claims at the sample data *)

Import Examples.

Lemma timeout_not_retried_witness :
  searchRecentTweetsWithRetry (world [FetchAborted; okResponse scenarioA])
    client params 1 30000 initial
  = (inl (ClientError {| message := MsgTimeout; statusCode := 0;
                         error_details := [] |}),
     {| fetchCalls := 1; postCalls := 0;
        trace := [EvFetch (str "token") params] |}).
Proof.
  apply (timeout_not_retried (world [FetchAborted; okResponse scenarioA])
           client params 1 30000 initial); [reflexivity | lia].
Defined.

(** The same world with a 500 in place of the timeout: the client
    sleeps, asks again and returns the payload (Scenario D). *)
Example server_error_retried :
  searchRecentTweetsWithRetry
    (world [FetchResponse (errorResponse 500); okResponse scenarioA])
    client params 1 30000 initial
  = (inr scenarioA,
     {| fetchCalls := 2; postCalls := 0;
        trace := [EvFetch (str "token") params; EvSleep 30000;
                  EvFetch (str "token") params] |}).
Proof. vm_compute. reflexivity. Qed.



End ClientFacts.

(** ** The daily job *)

Module JobFacts.
Import Processor QueryBuilder Config Client Slack Job.

Lemma keywordTerm_term (ks1 ks2 : list KeywordEntry) :
  term <$> ks1 = term <$> ks2 → keywordTerm <$> ks1 = keywordTerm <$> ks2.
Proof.
  intros H.
  assert (∀ ks : list KeywordEntry,
            keywordTerm <$> ks
            = (λ t, if decide (SPACE ∈ t) then [DQUOTE] ++ t ++ [DQUOTE]
                    else t) <$> (term <$> ks)) as Hvia.
  { intros ks. rewrite <- list_fmap_compose. done. }
  by rewrite !Hvia, H.
Qed.

Lemma buildSearchQueries_term (ks1 ks2 : list KeywordEntry) settings :
  term <$> ks1 = term <$> ks2 →
  buildSearchQueries ks1 settings = buildSearchQueries ks2 settings.
Proof.
  intros H. unfold buildSearchQueries, fullQuery.
  rewrite (keywordTerm_term _ _ H).
  assert (length ks1 = length ks2) as ->; [|done].
  by rewrite <- (length_fmap term ks1), H, length_fmap.
Qed.

Lemma validateKeywords_term (ks1 ks2 : list KeywordEntry) index :
  term <$> ks1 = term <$> ks2 →
  Forall minLikesWellFormed ks1 → Forall minLikesWellFormed ks2 →
  validateKeywords ks1 index = validateKeywords ks2 index.
Proof.
  revert ks2 index. induction ks1 as [|k1 ks1 IH]; intros [|k2 ks2] index;
    try done.
  intros [= Hterm Hrest] [Hk1 Hks1]%Forall_cons [Hk2 Hks2]%Forall_cons.
  simpl. unfold validateKeywordEntry. rewrite Hterm.
  unfold minLikesWellFormed in Hk1, Hk2.
  case_decide; [done|].
  destruct (k_min_likes k1) as [m1|], (k_min_likes k2) as [m2|];
    simpl in Hk1, Hk2; rewrite ?decide_False by lia; by apply IH.
Qed.

Lemma validateConfig_term c1 c2 :
  version c1 = version c2 →
  global_settings c1 = global_settings c2 →
  term <$> keywords c1 = term <$> keywords c2 →
  Forall minLikesWellFormed (keywords c1) →
  Forall minLikesWellFormed (keywords c2) →
  validateConfig c1 = validateConfig c2.
Proof.
  intros Hv Hgs Hterm Hwf1 Hwf2. unfold validateConfig.
  rewrite Hv, Hgs, (validateKeywords_term _ _ 0%nat Hterm Hwf1 Hwf2).
  assert (length (keywords c1) = length (keywords c2)) as ->; [|done].
  by rewrite <- (length_fmap term (keywords c1)), Hterm, length_fmap.
Qed.

(** C10.  Two configurations that differ in the keywords' [min_likes]
    fields only run the same job: against the same world and from the
    same state, [executeDailyJob] ends with the same result and the
    same trace of requests, sleeps and posts (so the same query string
    is sent and the same summary of processed posts is posted), and
    the query builder returns the same queries for both. *)
Theorem keyword_min_likes_ignored w c1 c2 env st :
  version c1 = version c2 →
  global_settings c1 = global_settings c2 →
  term <$> keywords c1 = term <$> keywords c2 →
  Forall minLikesWellFormed (keywords c1) →
  Forall minLikesWellFormed (keywords c2) →
  executeDailyJob w c1 env st = executeDailyJob w c2 env st
  ∧ buildSearchQueries (keywords c1) (global_settings c1)
    = buildSearchQueries (keywords c2) (global_settings c2).
Proof.
  intros Hv Hgs Hterm Hwf1 Hwf2.
  pose proof (validateConfig_term c1 c2 Hv Hgs Hterm Hwf1 Hwf2) as Hvalid.
  pose proof (buildSearchQueries_term _ _ (global_settings c2) Hterm) as Hbuild.
  split; [|by rewrite Hgs].
  assert (dailyJobBody w c1 env st = dailyJobBody w c2 env st) as Hbody.
  { unfold dailyJobBody, loadConfig. rewrite Hvalid.
    destruct (validateConfig c2) as [error|[]]; [done|].
    unfold mbind at 1 3, M_bind at 1 3. simpl.
    rewrite Hgs, Hbuild, Hterm. reflexivity. }
  unfold executeDailyJob, try_catch. by rewrite Hbody.
Qed.

(** *** The claim at the sample data *)

Import Examples.

(** The helper [getMinLikes] does tell the two sample configurations
    apart; the job does not. *)
Example getMinLikes_differs :
  (λ k, getMinLikes k ja) <$> keywords configA = [5; 3]
  ∧ (λ k, getMinLikes k ja) <$> keywords configB = [3; 0].
Proof. split; reflexivity. Qed.

Lemma keyword_min_likes_ignored_witness :
  executeDailyJob (world [okResponse scenarioA]) configA env initial
  = executeDailyJob (world [okResponse scenarioA]) configB env initial.
Proof.
  refine (proj1 (keyword_min_likes_ignored (world [okResponse scenarioA])
                   configA configB env initial eq_refl eq_refl eq_refl _ _));
    repeat apply Forall_cons_2; try apply Forall_nil_2;
    unfold minLikesWellFormed; simpl; (exact I || lia).
Defined.

End JobFacts.

(* ================================================================== *)
(** * Further properties of the embedded code *)

(** ** The tweet processor: sizes, truncation, deduplication *)

Module ProcessorExtra.
Import Processor ProcessorFacts Vocabulary.

Lemma length_omap_le {A B} (f : A → option B) (l : list A) :
  (length (omap f l) ≤ length l)%nat.
Proof.
  induction l as [|x l IH]; csimpl; [done|].
  destruct (f x); csimpl; lia.
Qed.

Lemma sortByLikes_length tweets : length (sortByLikes tweets) = length tweets.
Proof. apply Permutation_length, sortByLikes_perm. Qed.

Lemma deduplicatedStage_length response minLikes :
  (length (deduplicatedStage response minLikes)
   ≤ length (responseTweets response))%nat.
Proof.
  unfold deduplicatedStage. rewrite removeDuplicates_dedupFrom.
  etransitivity; [apply sublist_length, dedupFrom_sublist|].
  unfold filteredStage, filterByLikes.
  etransitivity; [apply length_filter|].
  apply length_omap_le.
Qed.

(** The output is never longer than the raw post list; for a
    non-negative [displayLimit] its length is the smaller of the limit
    and the number of deduplicated posts, so it never exceeds the
    limit, and a limit of 0 gives the empty list. *)
Theorem output_length response minLikes displayLimit :
  (length (processTweets response minLikes displayLimit)
   ≤ length (default [] (data response)))%nat
  ∧ (0 ≤ displayLimit →
     Z.of_nat (length (processTweets response minLikes displayLimit))
     = Z.min displayLimit
             (Z.of_nat (length (deduplicatedStage response minLikes)))
     ∧ Z.of_nat (length (processTweets response minLikes displayLimit))
       ≤ displayLimit).
Proof.
  rewrite processTweets_pipeline. split.
  - etransitivity; [apply sublist_length, slice0_sublist|].
    rewrite sortByLikes_length. apply deduplicatedStage_length.
  - intros Hlimit. rewrite slice0_nonneg by done.
    rewrite length_take, sortByLikes_length. lia.
Qed.

(** Truncation drops the least liked: a deduplicated post that is not
    in the output has at most the likes of every post that is. *)
Theorem truncation_keeps_most_liked response minLikes displayLimit a b :
  a ∈ processTweets response minLikes displayLimit →
  b ∈ deduplicatedStage response minLikes →
  b ∉ processTweets response minLikes displayLimit →
  likes b ≤ likes a.
Proof.
  intros Ha Hb Hnb.
  destruct (processTweets_prefix response minLikes displayLimit) as [rest Hsplit].
  assert (b ∈ rest) as Hrest.
  { rewrite <- (sortByLikes_perm (deduplicatedStage _ _)), Hsplit in Hb.
    apply elem_of_app in Hb as [?|?]; done. }
  pose proof (sort_sorted likes (deduplicatedStage response minLikes)) as Hsorted.
  fold (sortByLikes (deduplicatedStage response minLikes)) in Hsorted.
  rewrite Hsplit in Hsorted.
  exact (StronglySorted_app_1_elem_of _ _ _ _ _ Hsorted Ha Hrest).
Qed.

(** A limit that is at least the number of deduplicated posts drops
    nothing: the output is a rearrangement of the deduplicated posts,
    and every post that passed the like filter is in the output or
    represented there by a post with its dedup key. *)
Theorem large_limit_keeps_all response minLikes displayLimit :
  Z.of_nat (length (deduplicatedStage response minLikes)) ≤ displayLimit →
  processTweets response minLikes displayLimit
    ≡ₚ deduplicatedStage response minLikes
  ∧ ∀ t, t ∈ filteredStage response minLikes →
         ∃ t', t' ∈ processTweets response minLikes displayLimit
               ∧ dedupKey t' = dedupKey t.
Proof.
  intros Hlimit.
  assert (processTweets response minLikes displayLimit
            ≡ₚ deduplicatedStage response minLikes) as Hperm.
  { rewrite processTweets_pipeline, slice0_nonneg by lia.
    rewrite take_ge by (rewrite sortByLikes_length; lia).
    apply sortByLikes_perm. }
  split; [exact Hperm|]. intros t Ht.
  destruct (dedupFrom_complete ∅ (filteredStage response minLikes) t Ht)
    as (t' & Ht' & Hkey); [apply not_elem_of_empty|].
  exists t'. split; [|done]. rewrite Hperm.
  unfold deduplicatedStage. by rewrite removeDuplicates_dedupFrom.
Qed.

Lemma dedupFrom_distinct seen tweets :
  NoDup (dedupKey <$> tweets) →
  (∀ t, t ∈ tweets → dedupKey t ∉ seen) →
  dedupFrom seen tweets = tweets.
Proof.
  revert seen. induction tweets as [|t ts IH]; intros seen Hnd Hfresh; [done|].
  simpl. rewrite fmap_cons in Hnd. apply NoDup_cons in Hnd as [Hnotin Hnd].
  rewrite decide_False by (apply Hfresh; left). f_equal.
  apply IH; [done|]. intros t' Hin.
  rewrite not_elem_of_union, not_elem_of_singleton. split.
  - intros Heq. apply Hnotin. rewrite <- Heq. by apply list_elem_of_fmap_2.
  - apply Hfresh. by right.
Qed.

(** [removeDuplicates] keeps the order of its input, leaves a list with
    pairwise distinct dedup keys as it is, and is idempotent. *)
Theorem removeDuplicates_idempotent tweets :
  removeDuplicates tweets `sublist_of` tweets
  ∧ (NoDup (dedupKey <$> tweets) → removeDuplicates tweets = tweets)
  ∧ removeDuplicates (removeDuplicates tweets) = removeDuplicates tweets.
Proof.
  assert (∀ l, NoDup (dedupKey <$> l) → removeDuplicates l = l) as Hid.
  { intros l Hnd. rewrite removeDuplicates_dedupFrom.
    apply dedupFrom_distinct; [done|]. intros t _. apply not_elem_of_empty. }
  split; [|split].
  - rewrite removeDuplicates_dedupFrom. apply dedupFrom_sublist.
  - apply Hid.
  - apply Hid. rewrite removeDuplicates_dedupFrom. apply dedupFrom_NoDup.
Qed.

(** When several included users share an id, a post of that author is
    given the name and handle of the last of them. *)
Theorem author_last_wins tweet us p :
  convertToProcessedTweet tweet (createUserMap us) = Some p →
  ∃ user before after,
    us = before ++ user :: after
    ∧ u_id user = t_author_id tweet
    ∧ (∀ other, other ∈ after → u_id other ≠ t_author_id tweet)
    ∧ p_author p = {| name := u_name user; username := u_username user |}
    ∧ url p = str "https://x.com/" ++ u_username user
              ++ str "/status/" ++ t_id tweet.
Proof.
  intros Hconv. apply convert_Some in Hconv as (user & Hlookup & ->).
  pose proof (createUserMap_Some _ _ _ Hlookup) as [_ Hid].
  rewrite createUserMap_lookup in Hlookup.
  apply last_filter_Some in Hlookup as (before & after & -> & Hafter).
  exists user, before, after. repeat split; try done.
  intros other Hother. by apply (proj1 (Forall_forall _ _) Hafter).
Qed.

(** *** Whitespace and the dedup key *)

Lemma trimStart_blank_app ws s : blank ws → trimStart (ws ++ s) = trimStart s.
Proof.
  induction 1 as [|c ws Hc _ IH]; simpl; [done|]. by rewrite Hc.
Qed.

Lemma trimStart_nil s : trimStart s = [] ↔ blank s.
Proof.
  unfold blank. induction s as [|c s IH]; simpl.
  - split; [constructor|done].
  - destruct (is_whitespace c) eqn:Hc.
    + rewrite IH. split; [by constructor|]. by intros [_ ?]%Forall_cons.
    + split; [done|]. intros [Hc' _]%Forall_cons. congruence.
Qed.

Lemma trimStart_app s t : trimStart s ≠ [] → trimStart (s ++ t) = trimStart s ++ t.
Proof.
  induction s as [|c s IH]; simpl; [done|].
  destruct (is_whitespace c); [exact IH|done].
Qed.

Lemma trimEnd_app_blank s ws : blank ws → trimEnd (s ++ ws) = trimEnd s.
Proof.
  intros Hws. unfold trimEnd. rewrite rev_app_distr.
  rewrite trimStart_blank_app; [done|]. by apply Forall_rev.
Qed.

Lemma trim_surrounded lead s trail :
  blank lead → blank trail → trim (lead ++ s ++ trail) = trim s.
Proof.
  intros Hlead Htrail. unfold trim. rewrite trimStart_blank_app by done.
  destruct (trimStart s) as [|c s'] eqn:E.
  - apply trimStart_nil in E.
    assert (trimStart (s ++ trail) = []) as ->; [|done].
    apply trimStart_nil. by apply Forall_app.
  - rewrite trimStart_app by (by rewrite E). rewrite E.
    by apply trimEnd_app_blank.
Qed.

(** Two posts whose texts share their first 100 code units have one
    dedup key, whatever follows; and a post of at most 100 code units
    has the key of its text stripped of surrounding whitespace. *)
Theorem dedupKey_window_and_whitespace p1 p2 :
  (take 100 (p_text p1) = take 100 (p_text p2) → dedupKey p1 = dedupKey p2)
  ∧ (∀ lead trail,
       blank lead → blank trail →
       p_text p2 = lead ++ p_text p1 ++ trail →
       (length (p_text p2) ≤ 100)%nat →
       dedupKey p2 = dedupKey p1).
Proof.
  unfold dedupKey, DUPLICATE_CHECK_LENGTH. split.
  - by intros ->.
  - intros lead trail Hlead Htrail Htext Hlen.
    rewrite (take_ge (p_text p2)) by done.
    rewrite take_ge by (rewrite Htext, !length_app in Hlen; lia).
    rewrite Htext. by apply trim_surrounded.
Qed.

(** *** At the sample data *)

Import Examples Samples.

Example tied_limit_2 : processTweets tied 0 2 = [postT2; postT1].
Proof. vm_compute. reflexivity. Qed.

Example tied_deduplicated : deduplicatedStage tied 0 = [postT1; postT2; postT3].
Proof. vm_compute. reflexivity. Qed.

Lemma truncation_keeps_most_liked_witness : likes postT3 ≤ likes postT2.
Proof.
  apply (truncation_keeps_most_liked tied 0 2 postT2 postT3).
  - rewrite tied_limit_2. apply list_elem_of_here.
  - rewrite tied_deduplicated.
    do 2 apply list_elem_of_further. apply list_elem_of_here.
  - rewrite tied_limit_2, !elem_of_cons, elem_of_nil.
    intros [?|[?|[]]]; discriminate.
Defined.

Lemma large_limit_keeps_all_witness :
  processTweets scenarioA 3 10 ≡ₚ deduplicatedStage scenarioA 3.
Proof.
  apply (proj1 (large_limit_keeps_all scenarioA 3 10 ltac:(compute_done))).
Defined.

Lemma author_last_wins_witness :
  ∃ user before after,
    [user1; user1b] = before ++ user :: after
    ∧ u_id user = t_author_id tweetA1
    ∧ (∀ other, other ∈ after → u_id other ≠ t_author_id tweetA1)
    ∧ p_author postA1b = {| name := u_name user; username := u_username user |}
    ∧ url postA1b = str "https://x.com/" ++ u_username user
                    ++ str "/status/" ++ t_id tweetA1.
Proof.
  apply (author_last_wins tweetA1 [user1; user1b] postA1b).
  vm_compute. reflexivity.
Defined.

End ProcessorExtra.

(** ** The query builder: length budget, no term lost *)

Module QueryBuilderExtra.
Import QueryBuilder QueryBuilderFacts Vocabulary.

Lemma length_js_join (sep : jsstring) (parts : list jsstring) :
  parts ≠ [] →
  length (join sep parts)
  = (sum_list_with length parts + length sep * (length parts - 1))%nat.
Proof.
  induction parts as [|p [|p' parts] IH]; intros Hne; [done|simpl; lia|].
  change (join sep (p :: p' :: parts)) with (p ++ sep ++ join sep (p' :: parts)).
  rewrite !length_app, IH by done. simpl. lia.
Qed.

Lemma length_keywordTerm k :
  length (keywordTerm k)
  = (length (term k) + if decide (SPACE ∈ term k) then 2 else 0)%nat.
Proof.
  unfold keywordTerm. case_decide; [|lia].
  rewrite !length_app. simpl. lia.
Qed.

Lemma length_fullQuery keywords settings :
  keywords ≠ [] →
  length (fullQuery keywords settings)
  = (20 + length (lang settings)
     + sum_list_with
         (λ k, length (term k) + if decide (SPACE ∈ term k) then 2 else 0)
         keywords
     + 4 * (length keywords - 1))%nat.
Proof.
  intros Hne. rewrite fullQuery_format, !length_app.
  rewrite length_js_join by (by destruct keywords).
  rewrite length_fmap.
  assert (sum_list_with length (keywordTerm <$> keywords)
          = sum_list_with
              (λ k, length (term k) + if decide (SPACE ∈ term k) then 2 else 0)
              keywords)%nat as ->.
  { clear Hne. induction keywords as [|k ks IH]; [done|].
    rewrite fmap_cons. simpl. by rewrite IH, length_keywordTerm. }
  simpl. lia.
Qed.

(** The length of the query is 20, plus the length of the language
    code, plus the lengths of the terms, plus 2 for every term with a
    space (its quotes), plus 4 for every [ OR ] between terms; the
    builder succeeds exactly when this number is at most 1024. *)
Theorem query_length_budget keywords settings :
  keywords ≠ [] →
  let cost :=
    (20 + length (lang settings)
     + sum_list_with
         (λ k, length (term k) + if decide (SPACE ∈ term k) then 2 else 0)
         keywords
     + 4 * (length keywords - 1))%nat in
  (∀ qs q, buildSearchQueries keywords settings = inr qs → q ∈ qs →
           length q = cost)
  ∧ ((∃ qs, buildSearchQueries keywords settings = inr qs) ↔ (cost ≤ 1024)%nat)
  ∧ (buildSearchQueries keywords settings = inl (QueryTooLongError cost)
     ↔ (1024 < cost)%nat).
Proof.
  intros Hne cost.
  pose proof (length_fullQuery keywords settings Hne) as Hlen. fold cost in Hlen.
  rewrite (buildSearchQueries_nonempty _ _ Hne), Hlen.
  split; [|split].
  - intros qs q. case_decide; [|done]. intros [= <-] ->%list_elem_of_singleton.
    exact Hlen.
  - case_decide; split; try done; try lia; [eauto | by intros [qs ?]].
  - case_decide; split; try done; lia.
Qed.

Lemma join_substring (sep p : jsstring) (parts : list jsstring) :
  p ∈ parts → substring p (join sep parts).
Proof.
  unfold substring. induction parts as [|p' [|p'' parts] IH].
  - by intros ?%elem_of_nil.
  - intros ->%list_elem_of_singleton. exists [], []. simpl. by rewrite app_nil_r.
  - change (join sep (p' :: p'' :: parts))
      with (p' ++ sep ++ join sep (p'' :: parts)).
    intros [->|Hin]%elem_of_cons.
    + exists [], (sep ++ join sep (p'' :: parts)). done.
    + destruct (IH Hin) as (pre & post & ->).
      exists (p' ++ sep ++ pre), post. by rewrite <- !app_assoc.
Qed.

(** A query is built from a non-empty keyword list only, is the single
    element of the result, and contains every term as a run of
    consecutive code units: no keyword is dropped or altered. *)
Theorem query_contains_every_term keywords settings qs :
  buildSearchQueries keywords settings = inr qs →
  keywords ≠ []
  ∧ ∃ q, qs = [q] ∧ ∀ k, k ∈ keywords → substring (term k) q.
Proof.
  intros Hbuild.
  assert (keywords ≠ []) as Hne.
  { intros ->. discriminate Hbuild. }
  split; [done|].
  rewrite (buildSearchQueries_nonempty _ _ Hne) in Hbuild.
  case_decide; [|done]. injection Hbuild as <-.
  eexists. split; [done|]. intros k Hk.
  assert (substring (keywordTerm k) (join (str " OR ") (keywordTerm <$> keywords)))
    as (pre & post & Hjoin) by (by apply join_substring, list_elem_of_fmap_2).
  rewrite fullQuery_format, Hjoin. unfold keywordTerm, substring. case_decide.
  - exists (str "(" ++ pre ++ [DQUOTE]),
           ([DQUOTE] ++ post ++ str ") -is:retweet lang:" ++ lang settings).
    by rewrite <- !app_assoc.
  - exists (str "(" ++ pre), (post ++ str ") -is:retweet lang:" ++ lang settings).
    by rewrite <- !app_assoc.
Qed.

(** *** At the sample data *)

Import Examples Samples.

Lemma query_length_budget_witness :
  ∃ qs, buildSearchQueries twoKeywords ja = inr qs.
Proof.
  apply (proj2 (proj1 (proj2 (query_length_budget twoKeywords ja
                                ltac:(discriminate))))).
  vm_compute. lia.
Defined.

Lemma query_contains_every_term_witness :
  twoKeywords ≠ []
  ∧ ∃ q, [query jobParams] = [q]
         ∧ ∀ k, k ∈ twoKeywords → substring (term k) q.
Proof.
  apply (query_contains_every_term twoKeywords ja [query jobParams]).
  vm_compute. reflexivity.
Defined.

End QueryBuilderExtra.

(** ** The configuration loader *)

Module ConfigFacts.
Import Config.

Lemma validateGlobalSettings_ok settings :
  validateGlobalSettings settings = inr ()
  ↔ 0 ≤ min_likes settings ∧ 10 ≤ max_results settings ≤ 100
    ∧ lang settings ≠ [].
Proof.
  unfold validateGlobalSettings.
  case_decide; [split; [done|lia]|].
  case_decide; [split; [done|lia]|].
  case_decide as Hlang.
  - apply nil_length_inv in Hlang. split; [done|]. by intros (_ & _ & ?).
  - split; [|done]. intros _. repeat split; try lia.
    intros Heq. by rewrite Heq in Hlang.
Qed.

Lemma validateKeywordEntry_ok keyword index :
  validateKeywordEntry keyword index = inr ()
  ↔ trim (term keyword) ≠ [] ∧ minLikesWellFormed keyword.
Proof.
  unfold validateKeywordEntry, minLikesWellFormed.
  case_decide as Hterm.
  - apply nil_length_inv in Hterm. split; [done|]. by intros [? _].
  - assert (trim (term keyword) ≠ []) by (by intros Heq; rewrite Heq in Hterm).
    destruct (k_min_likes keyword) as [m|]; simpl; [|done].
    case_decide.
    + split; [done|]. intros [_ ?]. lia.
    + split; [|done]. intros _. split; [done|lia].
Qed.

Lemma validateKeywords_ok ks index :
  validateKeywords ks index = inr ()
  ↔ Forall (λ k, trim (term k) ≠ [] ∧ minLikesWellFormed k) ks.
Proof.
  revert index. induction ks as [|k ks IH]; intros index; simpl.
  - split; [constructor|done].
  - rewrite Forall_cons, <- (validateKeywordEntry_ok k index), <- (IH (S index)).
    destruct (validateKeywordEntry k index) as [e|[]]; [|tauto].
    split; [done|]. by intros [? _].
Qed.

(** [validateConfig] accepts a configuration exactly when its version is
    at least 1, [min_likes] is not negative, [max_results] lies in
    10..100, [lang] is not empty, there is a keyword, and every
    keyword has a term that is not blank and a [min_likes] that is
    absent or not negative; [loadConfig] then returns the
    configuration it was given. *)
Theorem validateConfig_accepts config :
  (validateConfig config = inr ()
   ↔ 1 ≤ version config
     ∧ 0 ≤ min_likes (global_settings config)
     ∧ 10 ≤ max_results (global_settings config) ≤ 100
     ∧ lang (global_settings config) ≠ []
     ∧ keywords config ≠ []
     ∧ Forall (λ k, trim (term k) ≠ [] ∧ minLikesWellFormed k)
              (keywords config))
  ∧ (∀ loaded, loadConfig config = inr loaded →
               loaded = config ∧ validateConfig config = inr ()).
Proof.
  split.
  - pose proof (validateGlobalSettings_ok (global_settings config)) as Hglobal.
    unfold validateConfig.
    case_decide; [split; [done|lia]|].
    destruct (validateGlobalSettings (global_settings config)) as [e|[]].
    { split; [done|]. intros (_ & ? & ? & ? & _).
      by assert (inl e = inr ()) by (by apply Hglobal). }
    destruct (proj1 Hglobal eq_refl) as (? & ? & ?).
    case_decide as Hlen.
    + apply nil_length_inv in Hlen. split; [done|]. by intros (_ & _ & _ & _ & ? & _).
    + assert (keywords config ≠ []) by (by intros Heq; rewrite Heq in Hlen).
      rewrite validateKeywords_ok. split.
      * intros ?. repeat split; (done || lia).
      * by intros (_ & _ & _ & _ & _ & ?).
  - unfold loadConfig. intros loaded.
    destruct (validateConfig config) as [e|[]]; [done|]. by intros [= <-].
Qed.

(** When [validateKeywords] rejects a list, the index in the error is
    the position of the first invalid keyword: every keyword before it
    is valid, and it has a blank term (term error) or a good term and a
    negative [min_likes] (min-likes error). *)
Theorem validateKeywords_first_invalid ks error :
  validateKeywords ks 0 = inl error →
  ∃ i k,
    ks !! i = Some k
    ∧ Forall (λ k, trim (term k) ≠ [] ∧ minLikesWellFormed k) (take i ks)
    ∧ ((trim (term k) = [] ∧ error = KeywordTermInvalid i)
       ∨ (trim (term k) ≠ [] ∧ (∃ m, k_min_likes k = Some m ∧ m < 0)
          ∧ error = KeywordMinLikesInvalid i)).
Proof.
  assert (∀ start,
    validateKeywords ks start = inl error →
    ∃ i k,
      ks !! i = Some k
      ∧ Forall (λ k, trim (term k) ≠ [] ∧ minLikesWellFormed k) (take i ks)
      ∧ ((trim (term k) = [] ∧ error = KeywordTermInvalid (start + i))
         ∨ (trim (term k) ≠ [] ∧ (∃ m, k_min_likes k = Some m ∧ m < 0)
            ∧ error = KeywordMinLikesInvalid (start + i)))) as Hgen.
  { induction ks as [|k ks IH]; intros start; simpl; [done|].
    destruct (validateKeywordEntry k start) as [e|[]] eqn:Hentry.
    - intros [= ->]. exists 0%nat, k. split; [done|]. split; [constructor|].
      rewrite Nat.add_0_r. unfold validateKeywordEntry in Hentry.
      case_decide as Hterm.
      + left. split; [by apply nil_length_inv|congruence].
      + right. split; [by intros Heq; rewrite Heq in Hterm|].
        destruct (k_min_likes k) as [m|]; [|done].
        case_decide; [|done]. split; [by exists m|congruence].
    - intros Hrest. destruct (IH _ Hrest) as (i & k' & Hi & Hbefore & Hcase).
      exists (S i), k'. split; [done|]. split.
      + simpl. constructor; [by apply (validateKeywordEntry_ok k start)|done].
      + by rewrite Nat.add_succ_r. }
  intros H. by apply (Hgen 0%nat).
Qed.

(** In a configuration that [validateConfig] accepts, the effective
    minimum of every keyword is not negative, and it is the keyword's
    own [min_likes] when it has one (0 included), the global one
    otherwise. *)
Theorem getMinLikes_validated config k :
  validateConfig config = inr () →
  k ∈ keywords config →
  0 ≤ getMinLikes k (global_settings config)
  ∧ (∀ m, k_min_likes k = Some m → getMinLikes k (global_settings config) = m)
  ∧ (k_min_likes k = None →
     getMinLikes k (global_settings config) = min_likes (global_settings config)).
Proof.
  intros Hvalid Hk.
  apply (proj1 (validateConfig_accepts config)) in Hvalid
    as (_ & Hglobal & _ & _ & _ & Hks).
  apply (proj1 (Forall_forall _ _)) with (x := k) in Hks as [_ Hwf]; [|done].
  unfold getMinLikes, minLikesWellFormed in *.
  destruct (k_min_likes k) as [m|]; simpl in Hwf.
  - split; [done|]. split; [by intros ? [= <-]|done].
  - split; [done|]. split; [done|done].
Qed.

(** *** At the sample data *)

Import Examples Samples.

Lemma validateKeywords_first_invalid_witness :
  ∃ i k,
    blankSecond !! i = Some k
    ∧ Forall (λ k, trim (term k) ≠ [] ∧ minLikesWellFormed k) (take i blankSecond)
    ∧ ((trim (term k) = [] ∧ KeywordTermInvalid 1 = KeywordTermInvalid i)
       ∨ (trim (term k) ≠ [] ∧ (∃ m, k_min_likes k = Some m ∧ m < 0)
          ∧ KeywordTermInvalid 1 = KeywordMinLikesInvalid i)).
Proof.
  apply (validateKeywords_first_invalid blankSecond (KeywordTermInvalid 1)).
  vm_compute. reflexivity.
Defined.

Lemma getMinLikes_validated_witness :
  0 ≤ getMinLikes (keyword (str "#Rails") (Some 5)) ja.
Proof.
  apply (getMinLikes_validated configA (keyword (str "#Rails") (Some 5))).
  - vm_compute. reflexivity.
  - apply list_elem_of_here.
Defined.

End ConfigFacts.

(** ** The search client: how many requests, which result *)

Module ClientExtra.
Import Client ClientFacts Vocabulary.

Section Retry.
Context (w : World) (client : XApiClient) (params : SearchParams).
Context (maxRetries retryDelay : Z).

Let request : Event := EvFetch (bearerToken client) params.

Let outcome (n : nat) : FetchOutcome := fetches w n (bearerToken client) params.

(** The state after [n] attempts made from [st]. *)
Let after (n : nat) (st : State) : State :=
  {| fetchCalls := fetchCalls st + n; postCalls := postCalls st;
     trace := trace st ++ attempts request retryDelay n |}.

Lemma attempts_succ n :
  attempts request retryDelay (S (S n))
  = request :: EvSleep retryDelay :: attempts request retryDelay (S n).
Proof. done. Qed.

Lemma search_result st :
  searchRecentTweets w client params st
  = (searchResultAt w client params (fetchCalls st),
     {| fetchCalls := S (fetchCalls st); postCalls := postCalls st;
        trace := trace st ++ [request] |}).
Proof.
  rewrite (surjective_pairing (searchRecentTweets w client params st)).
  rewrite searchRecentTweets_state. f_equal.
  unfold searchResultAt, searchRecentTweets, mbind, M_bind, fetchSearch. simpl.
  destruct (fetches w (fetchCalls st) (bearerToken client) params)
    as [| cause | response]; try done.
  destruct (handleErrorResponse response) as [error|]; [by destruct error|].
  by destruct (json_search response).
Qed.

(** A search throws client errors only; one with a status in 500-599
    comes from a response with that status whose body is not [null]. *)
Lemma searchResultAt_error n error :
  searchResultAt w client params n = inl error →
  ∃ e, error = ClientError e
       ∧ (500 ≤ statusCode e ≤ 599 → serverError (outcome n)).
Proof.
  unfold searchResultAt, searchRecentTweets, mbind, M_bind, fetchSearch, outcome.
  simpl.
  destruct (fetches w n (bearerToken client) params) as [| cause | response];
    simpl.
  - intros [= <-]. eexists. split; [done|]. simpl. lia.
  - intros [= <-]. eexists. split; [done|]. simpl. lia.
  - unfold handleErrorResponse, nullBody.
    destruct (ok response) eqn:Hok.
    + destruct (json_search response); [|done].
      intros [= <-]. eexists. split; [done|]. simpl. lia.
    + destruct (error_data response) as [|cause|errors]; simpl;
        intros [= <-]; eexists; (split; [done|]); simpl; intros Hstatus;
        first [lia | by split; [|intros []]].
Qed.

Lemma searchResultAt_serverError n :
  serverError (outcome n) →
  ∃ e, searchResultAt w client params n = inl (ClientError e)
       ∧ 500 ≤ statusCode e ≤ 599.
Proof.
  unfold searchResultAt, searchRecentTweets, mbind, M_bind, fetchSearch, outcome.
  simpl.
  destruct (fetches w n (bearerToken client) params) as [| cause | response];
    simpl; try done.
  intros [Hstatus Hbody]. unfold handleErrorResponse, ok.
  rewrite bool_decide_false by lia. unfold nullBody in Hbody.
  destruct (error_data response) as [|cause|errors]; simpl;
    [|done|]; (eexists; split; [done|]; done).
Qed.

(** After [k] attempts that met a server error, the attempt that does
    not, or that is the last one allowed, decides the result. *)
Lemma retryLoop_result (k : nat) attempt lastError st :
  0 ≤ attempt → attempt + Z.of_nat k ≤ maxRetries →
  (∀ i, (i < k)%nat → serverError (outcome (fetchCalls st + i))) →
  attempt + Z.of_nat k = maxRetries ∨ ¬ serverError (outcome (fetchCalls st + k)) →
  retryLoop w client params maxRetries retryDelay
            (Z.to_nat (maxRetries + 1 - attempt)) attempt lastError st
  = (searchResultAt w client params (fetchCalls st + k), after (S k) st).
Proof.
  revert attempt lastError st.
  induction k as [|k IH]; intros attempt lastError st Hattempt Hk Hbefore Hlast.
  - replace (Z.to_nat (maxRetries + 1 - attempt))
      with (S (Z.to_nat (maxRetries - attempt))) by lia.
    cbn [retryLoop]. unfold try_catch. rewrite search_result.
    rewrite Nat.add_0_r in *. unfold after. cbn [attempts].
    rewrite Nat.add_1_r.
    destruct (searchResultAt w client params (fetchCalls st)) as [error|payload]
      eqn:Hres; [|done].
    apply searchResultAt_error in Hres as (e & -> & Hserver).
    case_decide; [done|]. case_decide as Hretry; [|done].
    exfalso. destruct Hlast as [?|Hno]; [lia|]. apply Hno, Hserver. lia.
  - replace (Z.to_nat (maxRetries + 1 - attempt))
      with (S (Z.to_nat (maxRetries + 1 - (attempt + 1)))) by lia.
    cbn [retryLoop]. unfold try_catch. rewrite search_result.
    destruct (searchResultAt_serverError (fetchCalls st)) as (e & -> & Hstatus).
    { rewrite <- (Nat.add_0_r (fetchCalls st)). apply Hbefore. lia. }
    rewrite decide_False by (rewrite !elem_of_cons, elem_of_nil; lia).
    rewrite decide_True by lia.
    unfold mbind at 1, M_bind at 1, sleep, emit. cbn [fetchCalls postCalls trace].
    rewrite IH; cbn [fetchCalls postCalls trace]; try lia.
    + f_equal; [f_equal; lia|]. unfold after. cbn [fetchCalls postCalls trace].
      f_equal; [lia|]. rewrite attempts_succ, <- !app_assoc. done.
    + intros i Hi. replace (S (fetchCalls st) + i)%nat
        with (fetchCalls st + S i)%nat by lia. apply Hbefore. lia.
    + replace (S (fetchCalls st) + k)%nat with (fetchCalls st + S k)%nat by lia.
      destruct Hlast as [?|?]; [left; lia|by right].
Qed.

(** Some number of leading server errors, at most [m], decides. *)
Lemma leading_server_errors (start m : nat) :
  ∃ k, (k ≤ m)%nat
       ∧ (∀ i, (i < k)%nat → serverError (outcome (start + i)))
       ∧ (k = m ∨ ¬ serverError (outcome (start + k))).
Proof.
  induction m as [|m (k & Hk & Hbefore & Hlast)].
  - exists 0%nat. split; [done|]. split; [lia|by left].
  - destruct (decide (serverError (outcome (start + k)))) as [Hse|Hno].
    + destruct Hlast as [->|?]; [|done].
      exists (S m). split; [done|]. split; [|by left].
      intros i Hi. destruct (decide (i = m)) as [->|?]; [done|].
      apply Hbefore. lia.
    + exists k. split; [lia|]. split; [done|by right].
Qed.

End Retry.

Lemma retry_run w client params maxRetries retryDelay st :
  0 ≤ maxRetries →
  ∃ n, (1 ≤ n)%nat ∧ Z.of_nat n ≤ maxRetries + 1
    ∧ searchRecentTweetsWithRetry w client params maxRetries retryDelay st
      = (searchResultAt w client params (fetchCalls st + (n - 1)),
         {| fetchCalls := fetchCalls st + n;
            postCalls := postCalls st;
            trace := trace st
                     ++ attempts (EvFetch (bearerToken client) params)
                                 retryDelay n |}).
Proof.
  intros Hmax.
  destruct (leading_server_errors w client params (fetchCalls st)
              (Z.to_nat maxRetries)) as (k & Hk & Hbefore & Hlast).
  pose proof (retryLoop_result w client params maxRetries retryDelay k 0 None st)
    as Hrun.
  cbv zeta in Hrun. rewrite Z.sub_0_r in Hrun.
  unfold searchRecentTweetsWithRetry. rewrite Hrun; try lia; try done.
  - exists (S k). split; [lia|]. split; [lia|].
    by replace (S k - 1)%nat with k by lia.
  - destruct Hlast as [->|?]; [left; lia|by right].
Qed.

(** With [maxRetries ≥ 0] the client makes between 1 and
    [maxRetries + 1] requests, separated by sleeps of [retryDelay] and
    by nothing else; its result is the result of the last request it
    made, and what it throws is a client error.  With a negative
    [maxRetries] it makes no request and throws [null]. *)
Theorem retry_request_bound w client params maxRetries retryDelay st :
  let final :=
    searchRecentTweetsWithRetry w client params maxRetries retryDelay st in
  (0 ≤ maxRetries →
   ∃ n, (1 ≤ n)%nat ∧ Z.of_nat n ≤ maxRetries + 1
     ∧ final = (searchResultAt w client params (fetchCalls st + (n - 1)),
                {| fetchCalls := fetchCalls st + n;
                   postCalls := postCalls st;
                   trace := trace st
                            ++ attempts (EvFetch (bearerToken client) params)
                                        retryDelay n |})
     ∧ ∀ error, final.1 = inl error → ∃ e, error = ClientError e)
  ∧ (maxRetries < 0 → final = (inl ThrownNull, st)).
Proof.
  intros final. subst final. split.
  - intros Hmax.
    destruct (retry_run w client params maxRetries retryDelay st Hmax)
      as (n & Hn1 & Hn2 & Hrun).
    exists n. split; [done|]. split; [done|]. split; [done|].
    rewrite Hrun. cbn [fst]. intros error Herr.
    apply searchResultAt_error in Herr as (e & -> & _). by exists e.
  - intros Hneg. unfold searchRecentTweetsWithRetry.
    replace (Z.to_nat (maxRetries + 1)) with 0%nat by lia. done.
Qed.

(** Server errors followed by a success: when the first [k] outcomes
    are responses with a status in 500-599 and a body other than
    [null], [k ≤ maxRetries], and the next outcome is a 2xx response
    with a readable body, the client returns that body after [k + 1]
    requests and [k] sleeps. *)
Theorem retry_until_success
    w client params maxRetries retryDelay st (k : nat) response payload :
  Z.of_nat k ≤ maxRetries →
  (∀ i, (i < k)%nat →
        serverError (fetches w (fetchCalls st + i) (bearerToken client) params)) →
  fetches w (fetchCalls st + k) (bearerToken client) params
    = FetchResponse response →
  200 ≤ status response ≤ 299 →
  json_search response = inr payload →
  searchRecentTweetsWithRetry w client params maxRetries retryDelay st
  = (inr payload,
     {| fetchCalls := fetchCalls st + S k;
        postCalls := postCalls st;
        trace := trace st
                 ++ attempts (EvFetch (bearerToken client) params)
                             retryDelay (S k) |}).
Proof.
  intros Hk Hbefore Hfetch Hok Hjson.
  pose proof (retryLoop_result w client params maxRetries retryDelay k 0 None st)
    as Hrun.
  cbv zeta in Hrun. rewrite Z.sub_0_r in Hrun.
  unfold searchRecentTweetsWithRetry. rewrite Hrun; try lia; try done.
  - f_equal. unfold searchResultAt.
    by rewrite (searchRecentTweets_ok _ _ _ _ response payload).
  - right. rewrite Hfetch. simpl. intros [Hstatus _]. lia.
Qed.

(** A server error whose body is [null] ends the attempts: when the
    first [k] outcomes are responses with a status in 500-599 and a
    body other than [null], [k ≤ maxRetries], and the next outcome is
    a non-2xx response with the body [null], the client throws the
    status-0 error of a failed request after [k + 1] requests, however
    many retries are left and whatever the status of that response. *)
Theorem retry_stops_at_null_body
    w client params maxRetries retryDelay st (k : nat) response cause :
  Z.of_nat k ≤ maxRetries →
  (∀ i, (i < k)%nat →
        serverError (fetches w (fetchCalls st + i) (bearerToken client) params)) →
  fetches w (fetchCalls st + k) (bearerToken client) params
    = FetchResponse response →
  ¬ (200 ≤ status response ≤ 299) →
  error_data response = JsonNull cause →
  searchRecentTweetsWithRetry w client params maxRetries retryDelay st
  = (inl (ClientError {| message := MsgRequestFailed cause; statusCode := 0;
                         error_details := [] |}),
     {| fetchCalls := fetchCalls st + S k;
        postCalls := postCalls st;
        trace := trace st
                 ++ attempts (EvFetch (bearerToken client) params)
                             retryDelay (S k) |}).
Proof.
  intros Hk Hbefore Hfetch Hnok Hbody.
  pose proof (retryLoop_result w client params maxRetries retryDelay k 0 None st)
    as Hrun.
  cbv zeta in Hrun. rewrite Z.sub_0_r in Hrun.
  unfold searchRecentTweetsWithRetry. rewrite Hrun; try lia; try done.
  - f_equal. unfold searchResultAt.
    by rewrite (searchRecentTweets_null_body _ _ _ _ response cause).
  - right. rewrite Hfetch. simpl. unfold nullBody. rewrite Hbody. tauto.
Qed.

(** Retry exhaustion: when the first [maxRetries + 1] outcomes are all
    responses with a status in 500-599 and a body other than [null],
    the client makes exactly [maxRetries + 1] requests and throws the
    error of the last response: its status, the message of that
    status, and the [errors] of its body. *)
Theorem retry_exhaustion w client params maxRetries retryDelay st last :
  0 ≤ maxRetries →
  (∀ i : nat, Z.of_nat i ≤ maxRetries →
     serverError (fetches w (fetchCalls st + i) (bearerToken client) params)) →
  fetches w (fetchCalls st + Z.to_nat maxRetries) (bearerToken client) params
    = FetchResponse last →
  searchRecentTweetsWithRetry w client params maxRetries retryDelay st
  = (inl (ClientError {| message := errorMessage (status last);
                         statusCode := status last;
                         error_details := match error_data last with
                                          | Json (Some errors) => errors
                                          | _ => []
                                          end |}),
     {| fetchCalls := fetchCalls st + S (Z.to_nat maxRetries);
        postCalls := postCalls st;
        trace := trace st
                 ++ attempts (EvFetch (bearerToken client) params)
                             retryDelay (S (Z.to_nat maxRetries)) |}).
Proof.
  intros Hmax Hall Hlast.
  pose proof (retryLoop_result w client params maxRetries retryDelay
                (Z.to_nat maxRetries) 0 None st) as Hrun.
  cbv zeta in Hrun. rewrite Z.sub_0_r in Hrun.
  unfold searchRecentTweetsWithRetry. rewrite Hrun; try lia.
  - specialize (Hall (Z.to_nat maxRetries)). rewrite Hlast in Hall.
    simpl in Hall. destruct Hall as [Hstatus Hbody]; [lia|].
    f_equal. unfold searchResultAt.
    rewrite (searchRecentTweets_error _ _ _ _ last); [done|done|lia|done].
  - intros i Hi. apply Hall. lia.
Qed.

(** *** At the sample data *)

Import Examples Samples.

Lemma retry_until_success_witness :
  searchRecentTweetsWithRetry
    (world [FetchResponse (errorResponse 502); okResponse scenarioA])
    client params 1 30000 initial
  = (inr scenarioA,
     {| fetchCalls := 2; postCalls := 0;
        trace := [EvFetch (str "token") params; EvSleep 30000;
                  EvFetch (str "token") params] |}).
Proof.
  apply (retry_until_success
           (world [FetchResponse (errorResponse 502); okResponse scenarioA])
           client params 1 30000 initial 1
           {| status := 200; json_search := inr scenarioA;
              error_data := Json None |}
           scenarioA).
  - lia.
  - intros [|i] Hi; [|lia]. simpl. split; [lia|]. intros [].
  - reflexivity.
  - simpl. lia.
  - reflexivity.
Defined.

Lemma retry_exhaustion_witness :
  searchRecentTweetsWithRetry
    (world [FetchResponse (errorResponse 500); FetchResponse (errorResponse 503)])
    client params 1 30000 initial
  = (inl (ClientError {| message := MsgServer 503; statusCode := 503;
                         error_details := [] |}),
     {| fetchCalls := 2; postCalls := 0;
        trace := [EvFetch (str "token") params; EvSleep 30000;
                  EvFetch (str "token") params] |}).
Proof.
  apply (retry_exhaustion
           (world [FetchResponse (errorResponse 500);
                   FetchResponse (errorResponse 503)])
           client params 1 30000 initial (errorResponse 503)).
  - lia.
  - intros [|[|i]] Hi; [| |lia]; simpl; (split; [lia|]); intros [].
  - reflexivity.
Defined.

(** A 500, then a 503 whose body is [null], with two retries allowed:
    the second request is the last. *)
Lemma retry_stops_at_null_body_witness :
  searchRecentTweetsWithRetry
    (world [FetchResponse (errorResponse 500);
            FetchResponse (nullBodyResponse 503); okResponse scenarioA])
    client params 2 30000 initial
  = (inl (ClientError {| message := MsgRequestFailed nullMemberMessage;
                         statusCode := 0; error_details := [] |}),
     {| fetchCalls := 2; postCalls := 0;
        trace := [EvFetch (str "token") params; EvSleep 30000;
                  EvFetch (str "token") params] |}).
Proof.
  apply (retry_stops_at_null_body
           (world [FetchResponse (errorResponse 500);
                   FetchResponse (nullBodyResponse 503); okResponse scenarioA])
           client params 2 30000 initial 1 (nullBodyResponse 503)
           nullMemberMessage).
  - lia.
  - intros [|i] Hi; [|lia]. simpl. split; [lia|]. intros [].
  - reflexivity.
  - simpl. lia.
  - reflexivity.
Defined.

End ClientExtra.

(** ** The Slack notifier: delivery with retries *)

Module SlackFacts.
Import Slack Vocabulary.

Section Delivery.
Context (w : World) (notifier : SlackNotifier) (payload : SlackWebhookPayload).

Let post : Event := EvPost (webhookUrl notifier) payload.

Let after (n : nat) (st : State) : State :=
  {| fetchCalls := fetchCalls st; postCalls := postCalls st + n;
     trace := trace st ++ attempts post RETRY_DELAY n |}.

Lemma send_result st :
  send w notifier payload st
  = (sendResultAt w notifier payload (postCalls st),
     {| fetchCalls := fetchCalls st; postCalls := S (postCalls st);
        trace := trace st ++ [post] |}).
Proof.
  unfold sendResultAt, send, mbind, M_bind, fetchPost. simpl.
  destruct (posts w (postCalls st) (webhookUrl notifier) payload)
    as [| cause | status]; try done.
  by case_decide.
Qed.

Lemma sendResultAt_ok n :
  sendResultAt w notifier payload n = inr ()
  ↔ postOk (posts w n (webhookUrl notifier) payload).
Proof.
  unfold sendResultAt, send, mbind, M_bind, fetchPost. simpl.
  destruct (posts w n (webhookUrl notifier) payload) as [| cause | status];
    simpl; try done.
  by case_decide.
Qed.

(** [sendWithRetry] stops at the first post that succeeds, or after
    [retries + 1] posts. *)
Lemma sendWithRetry_run retries st :
  ∃ n, (1 ≤ n ≤ S retries)%nat
    ∧ sendWithRetry w notifier payload retries st
      = (sendResultAt w notifier payload (postCalls st + (n - 1)), after n st)
    ∧ (∀ i, (i < n - 1)%nat →
            sendResultAt w notifier payload (postCalls st + i) ≠ inr ())
    ∧ (n = S retries
       ∨ sendResultAt w notifier payload (postCalls st + (n - 1)) = inr ()).
Proof.
  revert st. induction retries as [|retries IH]; intros st.
  - exists 1%nat. split; [lia|]. simpl. unfold try_catch. rewrite send_result.
    rewrite Nat.add_0_r. unfold after. cbn [attempts]. rewrite Nat.add_1_r.
    split; [|split; [lia|by left]].
    by destruct (sendResultAt w notifier payload (postCalls st)) as [e|[]].
  - cbn [sendWithRetry]. unfold try_catch. rewrite send_result.
    destruct (sendResultAt w notifier payload (postCalls st)) as [e|[]] eqn:Hfirst.
    + unfold mbind at 1, M_bind at 1, sleep, emit.
      cbn [fetchCalls postCalls trace].
      match goal with
      | |- context [sendWithRetry _ _ _ retries ?s] =>
          destruct (IH s) as (n & Hn & Hrun & Hbefore & Hlast)
      end.
      cbn [fetchCalls postCalls trace] in *.
      exists (S n). split; [lia|]. rewrite Hrun.
      destruct n as [|n]; [lia|].
      split; [|split].
      * f_equal; [f_equal; lia|]. unfold after.
        cbn [fetchCalls postCalls trace]. f_equal; [lia|].
        rewrite <- !app_assoc. done.
      * intros i Hi. destruct i as [|i].
        -- rewrite Nat.add_0_r, Hfirst. done.
        -- replace (postCalls st + S i)%nat with (S (postCalls st) + i)%nat by lia.
           apply Hbefore. lia.
      * destruct Hlast as [?|Hok]; [left; lia|right].
        replace (postCalls st + (S (S n) - 1))%nat
          with (S (postCalls st) + (S n - 1))%nat by lia. done.
    + exists 1%nat. split; [lia|]. rewrite Nat.add_0_r, Hfirst.
      unfold after. cbn [attempts]. rewrite Nat.add_1_r.
      split; [done|]. split; [lia|by right].
Qed.

End Delivery.

(** [sendWithRetry] posts the payload between 1 and [retries + 1]
    times, with sleeps of 5000 ms between the posts and no search
    request; it stops before the last allowed post only on a success,
    and its result is that of the last post it made. *)
Theorem sendWithRetry_posts w notifier payload retries st :
  ∃ n, (1 ≤ n ≤ S retries)%nat
    ∧ sendWithRetry w notifier payload retries st
      = (sendResultAt w notifier payload (postCalls st + (n - 1)),
         {| fetchCalls := fetchCalls st;
            postCalls := postCalls st + n;
            trace := trace st
                     ++ attempts (EvPost (webhookUrl notifier) payload) 5000 n |})
    ∧ ((n < S retries)%nat →
       (sendWithRetry w notifier payload retries st).1 = inr ()).
Proof.
  destruct (sendWithRetry_run w notifier payload retries st)
    as (n & Hn & Hrun & _ & Hlast).
  exists n. split; [done|]. split; [exact Hrun|].
  intros Hearly. rewrite Hrun. cbn [fst].
  destruct Hlast as [?|?]; [lia|done].
Qed.

(** The payload is delivered exactly when the webhook answers one of
    the first [retries + 1] posts with a 2xx status; [sendDailySummary]
    allows three posts. *)
Theorem delivered_iff_some_post_ok w notifier payload retries st :
  ((sendWithRetry w notifier payload retries st).1 = inr ()
   ↔ ∃ i, (i ≤ retries)%nat
          ∧ postOk (posts w (postCalls st + i) (webhookUrl notifier) payload))
  ∧ ∀ summary,
      sendDailySummary w notifier summary
      = sendWithRetry w notifier (DailySummaryPayload summary) 2.
Proof.
  split; [|done].
  destruct (sendWithRetry_run w notifier payload retries st)
    as (n & Hn & Hrun & Hbefore & Hlast).
  rewrite Hrun. cbn [fst]. split.
  - intros Hok. exists (n - 1)%nat. split; [lia|]. by apply sendResultAt_ok.
  - intros (i & Hi & Hok). apply sendResultAt_ok in Hok.
    destruct Hlast as [->|?]; [|done].
    destruct (decide (i = retries)) as [->|Hne].
    + by replace (S retries - 1)%nat with retries by lia.
    + exfalso. apply (Hbefore i); [lia|done].
Qed.

(** [sendErrorNotification] never throws, whatever the webhook does;
    it posts at most three times and makes no search request. *)
Theorem sendErrorNotification_never_throws w notifier error st :
  let final := sendErrorNotification w notifier error st in
  final.1 = inr ()
  ∧ fetchCalls final.2 = fetchCalls st
  ∧ (postCalls st < postCalls final.2 ≤ postCalls st + 3)%nat.
Proof.
  unfold sendErrorNotification, try_catch.
  destruct (sendWithRetry_run w notifier (ErrorPayload error) MAX_RETRIES st)
    as (n & Hn & Hrun & _). rewrite Hrun. unfold MAX_RETRIES in Hn.
  destruct (sendResultAt _ _ _ _) as [e|[]]; simpl; (split; [done|split; [done|lia]]).
Qed.

End SlackFacts.

(** ** The daily job: what it throws, how much it sends *)

Module JobExtra.
Import Processor ProcessorFacts QueryBuilder Config Client Slack Job Vocabulary.

(** The error branch of [executeDailyJob] up to its [throw error]: the
    error notification. *)
Lemma notification_swallowed w env error st :
  ∃ st',
    ((if decide (SLACK_WEBHOOK_URL env = []) then mret ()
      else
        try_catch
          (slackNotifier ← lift (newSlackNotifier (SLACK_WEBHOOK_URL env));
           sendErrorNotification w slackNotifier error)
          (λ _, mret ())) : M unit) st = (inr (), st')
    ∧ fetchCalls st' = fetchCalls st
    ∧ (postCalls st ≤ postCalls st' ≤ postCalls st + 3)%nat
    ∧ (SLACK_WEBHOOK_URL env = [] → st' = st)
    ∧ (SLACK_WEBHOOK_URL env ≠ [] →
       st' = (sendErrorNotification w {| webhookUrl := SLACK_WEBHOOK_URL env |}
                                    error st).2).
Proof.
  case_decide as Hurl.
  - exists st. repeat split; (done || lia).
  - unfold try_catch, newSlackNotifier. rewrite decide_False by done.
    unfold lift, mbind, M_bind, mret, M_ret.
    pose proof (SlackFacts.sendWithRetry_run w
                  {| webhookUrl := SLACK_WEBHOOK_URL env |}
                  (ErrorPayload error) MAX_RETRIES st)
      as (n & Hn & Hrun & _).
    unfold MAX_RETRIES in Hn.
    unfold sendErrorNotification, try_catch. rewrite Hrun.
    destruct (sendResultAt _ _ _ _) as [e|[]]; simpl;
      eexists; (split; [done|]); simpl; repeat split; (done || lia).
Qed.

(** The job ends as its [try] block ends: a success stays a success
    with the same state, and a failure is thrown again as the same
    error, whatever happens to the error notification. *)
Theorem job_rethrows w keywordsData env st :
  (executeDailyJob w keywordsData env st).1
  = (dailyJobBody w keywordsData env st).1
  ∧ (∀ st', dailyJobBody w keywordsData env st = (inr (), st') →
            executeDailyJob w keywordsData env st = (inr (), st')).
Proof.
  split.
  - unfold executeDailyJob. unfold try_catch at 1.
    destruct (dailyJobBody w keywordsData env st) as [[error|[]] st1]; [|done].
    unfold mbind at 1, M_bind at 1.
    destruct (notification_swallowed w env error st1) as (st2 & -> & _).
    done.
  - intros st' Hbody. unfold executeDailyJob. unfold try_catch at 1.
    by rewrite Hbody.
Qed.

Lemma bind_lift_inl {A B} (e : Thrown) (k : A → M B) st :
  (lift (inl e) ≫= k) st = (inl e, st).
Proof. done. Qed.

Lemma bind_lift_inr {A B} (a : A) (k : A → M B) st :
  (lift (inr a) ≫= k) st = k a st.
Proof. done. Qed.

Lemma bind_run {A B} (m : M A) (k : A → M B) st :
  (m ≫= k) st
  = match m st with
    | (inl e, st') => (inl e, st')
    | (inr a, st') => k a st'
    end.
Proof. done. Qed.

(** The [try] block, one step after the other. *)
Lemma dailyJobBody_steps w keywordsData env st :
  dailyJobBody w keywordsData env st
  = match validateConfig keywordsData with
    | inl e => (inl e, st)
    | inr _ =>
      match buildSearchQueries (keywords keywordsData)
                               (global_settings keywordsData) with
      | inl e => (inl e, st)
      | inr queries =>
        if decide (X_BEARER_TOKEN env = []) then (inl BearerTokenMissing, st)
        else
          match searchRecentTweetsWithRetry w
                  {| bearerToken := X_BEARER_TOKEN env |}
                  {| query := default [] (queries !! 0%nat);
                     start_time := startTimeISO w 24;
                     sp_max_results := max_results (global_settings keywordsData);
                     tweet_fields := str "created_at,public_metrics,author_id";
                     user_fields := str "username,name";
                     expansions := str "author_id" |}
                  1 30000 st with
          | (inl e, st1) => (inl e, st1)
          | (inr response, st1) =>
            if decide (SLACK_WEBHOOK_URL env = [])
            then (inl WebhookUrlMissing, st1)
            else
              let processedTweets :=
                processTweets response
                  (min_likes (global_settings keywordsData)) 10 in
              sendDailySummary w {| webhookUrl := SLACK_WEBHOOK_URL env |}
                (buildNotificationSummary w processedTweets
                   (term <$> keywords keywordsData)
                   (result_count (meta response))
                   (Z.of_nat (length processedTweets)))
                st1
          end
      end
    end.
Proof.
  unfold dailyJobBody, loadConfig.
  destruct (validateConfig keywordsData) as [e|[]]; [done|].
  rewrite bind_lift_inr. cbv beta zeta.
  destruct (buildSearchQueries _ _) as [e|queries]; [done|].
  rewrite bind_lift_inr. unfold newXApiClient.
  case_decide; [done|]. rewrite bind_lift_inr, bind_run.
  unfold DEFAULT_MAX_RETRIES, DEFAULT_RETRY_DELAY, DEFAULT_DISPLAY_LIMIT.
  destruct (searchRecentTweetsWithRetry _ _ _ _ _ st) as [[e|response] st1];
    [done|].
  cbv beta zeta. unfold newSlackNotifier. case_decide; [done|].
  by rewrite bind_lift_inr.
Qed.

Lemma executeDailyJob_failure w keywordsData env st error st1 :
  dailyJobBody w keywordsData env st = (inl error, st1) →
  ∃ st2,
    executeDailyJob w keywordsData env st = (inl error, st2)
    ∧ fetchCalls st2 = fetchCalls st1
    ∧ (postCalls st1 ≤ postCalls st2 ≤ postCalls st1 + 3)%nat
    ∧ (SLACK_WEBHOOK_URL env = [] → st2 = st1)
    ∧ (SLACK_WEBHOOK_URL env ≠ [] →
       st2 = (sendErrorNotification w {| webhookUrl := SLACK_WEBHOOK_URL env |}
                                    error st1).2).
Proof.
  intros Hbody. unfold executeDailyJob. unfold try_catch at 1.
  rewrite Hbody, bind_run.
  destruct (notification_swallowed w env error st1) as (st2 & -> & Hrest).
  by exists st2.
Qed.

Lemma executeDailyJob_success w keywordsData env st st1 :
  dailyJobBody w keywordsData env st = (inr (), st1) →
  executeDailyJob w keywordsData env st = (inr (), st1).
Proof.
  intros Hbody. unfold executeDailyJob. unfold try_catch at 1. by rewrite Hbody.
Qed.

(** A job that cannot start, because the configuration is invalid,
    the query is refused or the bearer token is empty, throws that
    error without a single search request; all it may send is the
    error notification, and that only when a webhook is configured. *)
Theorem job_fails_before_network w keywordsData env st error :
  validateConfig keywordsData = inl error
  ∨ (validateConfig keywordsData = inr ()
     ∧ buildSearchQueries (keywords keywordsData) (global_settings keywordsData)
       = inl error)
  ∨ (validateConfig keywordsData = inr ()
     ∧ (∃ queries,
          buildSearchQueries (keywords keywordsData)
                             (global_settings keywordsData) = inr queries)
     ∧ X_BEARER_TOKEN env = [] ∧ error = BearerTokenMissing) →
  let final := executeDailyJob w keywordsData env st in
  final.1 = inl error
  ∧ fetchCalls final.2 = fetchCalls st
  ∧ (SLACK_WEBHOOK_URL env = [] → final.2 = st)
  ∧ (SLACK_WEBHOOK_URL env ≠ [] →
     final.2 = (sendErrorNotification w
                  {| webhookUrl := SLACK_WEBHOOK_URL env |} error st).2).
Proof.
  intros Hcause.
  assert (dailyJobBody w keywordsData env st = (inl error, st)) as Hbody.
  { rewrite dailyJobBody_steps.
    destruct Hcause as [-> | [[-> ->] | (-> & [queries ->] & Htoken & ->)]];
      try done.
    by rewrite decide_True. }
  intros final. subst final.
  destruct (executeDailyJob_failure _ _ _ _ _ _ Hbody)
    as (st2 & -> & Hfetch & _ & Hnone & Hsome).
  cbn [fst snd]. auto.
Qed.

(** Whatever the world does, one run of the job makes at most 2 search
    requests and at most 6 webhook posts. *)
Theorem job_request_budget w keywordsData env st :
  let final := executeDailyJob w keywordsData env st in
  (fetchCalls st ≤ fetchCalls final.2 ≤ fetchCalls st + 2)%nat
  ∧ (postCalls st ≤ postCalls final.2 ≤ postCalls st + 6)%nat.
Proof.
  assert (∀ r st1, dailyJobBody w keywordsData env st = (r, st1) →
            (fetchCalls st ≤ fetchCalls st1 ≤ fetchCalls st + 2)%nat
            ∧ (postCalls st ≤ postCalls st1 ≤ postCalls st + 3)%nat) as Hbody.
  { intros r st1. rewrite dailyJobBody_steps.
    destruct (validateConfig keywordsData) as [e|[]];
      [intros [= _ <-]; lia|].
    destruct (buildSearchQueries _ _) as [e|queries]; [intros [= _ <-]; lia|].
    case_decide; [intros [= _ <-]; lia|].
    match goal with
    | |- context [searchRecentTweetsWithRetry w ?c ?p 1 30000 st] =>
        destruct (ClientExtra.retry_run w c p 1 30000 st)
          as (n & Hn1 & Hn2 & ->); [lia|]
    end.
    destruct (searchResultAt _ _ _ _) as [e|response].
    { intros [= _ <-]. simpl. lia. }
    case_decide; [intros [= _ <-]; simpl; lia|].
    cbv zeta. unfold sendDailySummary.
    match goal with
    | |- context [sendWithRetry w ?nf ?pl MAX_RETRIES ?s] =>
        destruct (SlackFacts.sendWithRetry_run w nf pl MAX_RETRIES s)
          as (m & Hm & -> & _)
    end.
    unfold MAX_RETRIES in Hm. intros [= _ <-]. simpl. lia. }
  intros final. subst final.
  destruct (dailyJobBody w keywordsData env st) as [[error|[]] st1] eqn:Hrun;
    destruct (Hbody _ _ eq_refl) as [Hf Hp].
  - destruct (executeDailyJob_failure _ _ _ _ _ _ Hrun)
      as (st2 & -> & Hfetch & Hposts & _).
    cbn [fst snd]. lia.
  - rewrite (executeDailyJob_success _ _ _ _ _ Hrun). cbn [fst snd]. lia.
Qed.

Lemma attempts_first x delay n : (1 ≤ n)%nat → x ∈ attempts x delay n.
Proof. destruct n as [|[|n]]; [lia| |]; intros _; simpl; left. Qed.

Lemma attempts_last (l : list Event) x delay n :
  (1 ≤ n)%nat → last (l ++ attempts x delay n) = Some x.
Proof.
  intros Hn. destruct n as [|n]; [lia|]. clear Hn. revert l.
  induction n as [|n IH]; intros l.
  - simpl. apply last_snoc.
  - change (attempts x delay (S (S n)))
      with ([x; EvSleep delay] ++ attempts x delay (S n)).
    rewrite app_assoc. apply IH.
Qed.

(** A run of the job that succeeds has sent the query built from the
    configuration, and its last action is the post of the daily
    summary: of the posts processed from the last search response
    with the global [min_likes], at most 10, each with at least that
    many likes, under the configured terms; the summary's [filtered]
    count is its [displayed] count. *)
Theorem job_success_summary w keywordsData env st st' :
  executeDailyJob w keywordsData env st = (inr (), st') →
  let settings := global_settings keywordsData in
  ∃ query response,
    validateConfig keywordsData = inr ()
    ∧ buildSearchQueries (keywords keywordsData) settings = inr [query]
    ∧ let params :=
        {| query := query;
           start_time := startTimeISO w 24;
           sp_max_results := max_results settings;
           tweet_fields := str "created_at,public_metrics,author_id";
           user_fields := str "username,name";
           expansions := str "author_id" |} in
      let processedTweets := processTweets response (min_likes settings) 10 in
      let summary :=
        buildNotificationSummary w processedTweets
          (term <$> keywords keywordsData) (result_count (meta response))
          (Z.of_nat (length processedTweets)) in
      EvFetch (X_BEARER_TOKEN env) params ∈ trace st'
      ∧ searchResultAt w {| bearerToken := X_BEARER_TOKEN env |} params
                       (fetchCalls st' - 1) = inr response
      ∧ last (trace st')
        = Some (EvPost (SLACK_WEBHOOK_URL env) (DailySummaryPayload summary))
      ∧ (length (summary_tweets summary) ≤ 10)%nat
      ∧ Forall (λ t, min_likes settings ≤ s_likes t) (summary_tweets summary)
      ∧ filtered (stats summary) = displayed (stats summary).
Proof.
  intros Hjob settings.
  assert (dailyJobBody w keywordsData env st = (inr (), st')) as Hbody.
  { destruct (dailyJobBody w keywordsData env st) as [[error|[]] st1] eqn:Hrun.
    - destruct (executeDailyJob_failure _ _ _ _ _ _ Hrun) as (st2 & Hfail & _).
      congruence.
    - rewrite (executeDailyJob_success _ _ _ _ _ Hrun) in Hjob. congruence. }
  rewrite dailyJobBody_steps in Hbody. fold settings in Hbody.
  destruct (validateConfig keywordsData) as [e|[]]; [done|].
  destruct (buildSearchQueries (keywords keywordsData) settings)
    as [e|queries] eqn:Hbuild; [done|].
  assert (∃ query, queries = [query]) as [query ->].
  { clear Hbody. unfold buildSearchQueries in Hbuild.
    case_decide; [done|]. case_decide; [done|].
    injection Hbuild as <-. eauto. }
  case_decide as Htoken; [done|]. cbn [lookup list_lookup default] in Hbody.
  change (default [] (Some query)) with query in Hbody.
  match type of Hbody with
  | context [searchRecentTweetsWithRetry w ?c ?p 1 30000 st] =>
      destruct (ClientExtra.retry_run w c p 1 30000 st)
        as (n & Hn1 & Hn2 & Hsearch); [lia|]
  end.
  rewrite Hsearch in Hbody.
  destruct (searchResultAt _ _ _ (fetchCalls st + (n - 1))) as [e|response]
    eqn:Hresponse; [done|].
  case_decide as Hurl; [done|]. cbv zeta in Hbody.
  unfold sendDailySummary in Hbody.
  match type of Hbody with
  | context [sendWithRetry w ?nf ?pl MAX_RETRIES ?s] =>
      destruct (SlackFacts.sendWithRetry_run w nf pl MAX_RETRIES s)
        as (m & Hm & Hsend & _)
  end.
  rewrite Hsend in Hbody. injection Hbody as _ <-.
  exists query, response. split; [done|]. split; [done|].
  cbn [trace fetchCalls webhookUrl bearerToken].
  split; [|split; [|split; [|split; [|split]]]].
  - rewrite !elem_of_app. left. right. by apply attempts_first.
  - rewrite <- Hresponse. f_equal. lia.
  - apply attempts_last. lia.
  - unfold buildNotificationSummary. cbn [summary_tweets].
    rewrite length_fmap, processTweets_pipeline, slice0_nonneg by lia.
    rewrite length_take. lia.
  - unfold buildNotificationSummary. cbn [summary_tweets].
    apply Forall_fmap, Forall_forall. intros p Hp. simpl.
    apply processTweets_elem_of, deduplicatedStage_elem_of in Hp.
    by apply filteredStage_elem_of in Hp as [? _].
  - done.
Qed.

(** *** At the sample data *)

Import Examples Samples.

Lemma job_fails_before_network_witness :
  (executeDailyJob (world [okResponse scenarioA]) versionZero env initial).1
  = inl ConfigVersionInvalid.
Proof.
  apply (job_fails_before_network (world [okResponse scenarioA]) versionZero
           env initial ConfigVersionInvalid).
  left. vm_compute. reflexivity.
Defined.

Lemma job_success_summary_witness :
  ∃ query response,
    buildSearchQueries (keywords configA) ja = inr [query]
    ∧ searchResultAt (world [okResponse scenarioA])
        {| bearerToken := X_BEARER_TOKEN env |}
        {| query := query;
           start_time := str "2026-02-09T08:00:00.000Z";
           sp_max_results := 50;
           tweet_fields := str "created_at,public_metrics,author_id";
           user_fields := str "username,name";
           expansions := str "author_id" |} 0
      = inr response.
Proof.
  destruct (job_success_summary (world [okResponse scenarioA]) configA env
              initial
              (executeDailyJob (world [okResponse scenarioA]) configA env
                               initial).2)
    as (query & response & _ & Hbuild & _ & Hsearch & _).
  - vm_compute. reflexivity.
  - exists query, response. split; [exact Hbuild|exact Hsearch].
Defined.

End JobExtra.

(** ** The Block Kit payload of the daily summary *)

Module PayloadFacts.
Import Payload Vocabulary.

Section Layout.
Context (numberToString : Z → jsstring).

(** The [forEach] loop lays the sections out with one divider between
    each two of them. *)
Lemma pushTweets_separated total index tweets :
  (index + length tweets)%nat = total →
  pushTweets numberToString total index tweets
  = separated DividerBlock
      (imap (λ i tweet, buildTweetSection numberToString tweet (index + i))
            tweets).
Proof.
  revert index. induction tweets as [|tweet rest IH]; intros index Htotal; [done|].
  cbn [pushTweets imap]. rewrite Nat.add_0_r.
  rewrite (IH (S index)) by (simpl in Htotal; lia).
  assert (imap (λ i t, buildTweetSection numberToString t (S index + i)) rest
          = imap ((λ i t, buildTweetSection numberToString t (index + i)) ∘ S)
                 rest) as ->
    by (apply imap_ext; intros; simpl; f_equal; lia).
  destruct rest as [|tweet' rest].
  - simpl in *. by rewrite decide_False by lia.
  - simpl in Htotal. rewrite decide_True by lia. done.
Qed.

Lemma length_separated {A} (sep : A) (l : list A) :
  length (separated sep l) = (2 * length l - 1)%nat.
Proof.
  induction l as [|x [|y l] IH]; [done..|].
  change (separated sep (x :: y :: l)) with (x :: sep :: separated sep (y :: l)).
  cbn [length] in *. lia.
Qed.

End Layout.

(** The payload of a summary is the header, the keyword line and a
    divider, then the post sections in order with one divider between
    each two (or the one no-posts section), then a divider and the
    statistics.  It has 6 blocks without posts and [2n + 4] blocks for
    [n] posts, hence at most 24 for the at most 10 posts of a run. *)
Theorem payload_layout numberToString summary :
  let tweets := summary_tweets summary in
  let sections :=
    if decide (tweets = []) then [buildNoTweetsSection]
    else imap (λ i tweet, buildTweetSection numberToString tweet i) tweets in
  blocks (buildPayload numberToString summary)
  = [buildHeaderBlock (date summary);
     buildKeywordsSection (summary_keywords summary);
     DividerBlock]
    ++ separated DividerBlock sections
    ++ [DividerBlock; buildStatsSection numberToString (stats summary)]
  ∧ length (blocks (buildPayload numberToString summary))
    = (if decide (tweets = []) then 6 else 2 * length tweets + 4)%nat
  ∧ ((length tweets ≤ 10)%nat →
     (length (blocks (buildPayload numberToString summary)) ≤ 24)%nat).
Proof.
  intros tweets sections.
  assert (blocks (buildPayload numberToString summary)
          = [buildHeaderBlock (date summary);
             buildKeywordsSection (summary_keywords summary);
             DividerBlock]
            ++ separated DividerBlock sections
            ++ [DividerBlock; buildStatsSection numberToString (stats summary)])
    as Hlayout.
  { unfold buildPayload. cbn [blocks]. fold tweets. subst sections.
    destruct tweets as [|tweet rest] eqn:Htweets; [done|].
    rewrite decide_False by done. rewrite decide_False by done.
    by rewrite pushTweets_separated. }
  split; [exact Hlayout|].
  assert (length (blocks (buildPayload numberToString summary))
          = (if decide (tweets = []) then 6 else 2 * length tweets + 4)%nat)
    as Hlength.
  { rewrite Hlayout, !length_app, length_separated. subst sections.
    case_decide as Hnil.
    - done.
    - rewrite length_imap. destruct tweets; [done|]. simpl. lia. }
  split; [exact Hlength|]. rewrite Hlength. case_decide; lia.
Qed.

(** The section of a post shows its text cut to 200 code units, with
    [...] appended when something was cut, so at most 203 code units;
    a text of at most 200 code units is shown whole.  The first three
    sections start with a medal and a space, the others with the
    like count. *)
Theorem tweet_section_text numberToString tweet index :
  ∃ counts link,
    buildTweetSection numberToString tweet index
    = SectionBlock
        {| text_type := mrkdwn;
           text := medalOf index ++ counts ++ LINE_FEED
                   ++ displayTextOf tweet ++ LINE_FEED
                   ++ str "<" ++ s_url tweet ++ link;
           emoji := None |}
    ∧ (length (displayTextOf tweet) ≤ 203)%nat
    ∧ take 200 (displayTextOf tweet) = take 200 (s_text tweet)
    ∧ ((length (s_text tweet) ≤ 200)%nat → displayTextOf tweet = s_text tweet)
    ∧ ((200 < length (s_text tweet))%nat →
       displayTextOf tweet = take 200 (s_text tweet) ++ str "...")
    ∧ ((3 ≤ index)%nat → medalOf index = [])
    ∧ ((index < 3)%nat →
       ∃ medal, MEDAL_EMOJIS !! index = Some medal
                ∧ medalOf index = medal ++ str " ").
Proof.
  exists ([42; 10084; 65039; 32]%N ++ numberToString (s_likes tweet)
          ++ [32; 124; 32; 55357; 56577; 32]%N
          ++ numberToString (s_retweets tweet)
          ++ str "* | @" ++ s_username tweet),
         [124; 55357; 56599; 32; 25237; 31295; 12434; 35211; 12427; 62]%N.
  split.
  { unfold buildTweetSection. cbv zeta. f_equal. f_equal.
    rewrite <- !app_assoc. reflexivity. }
  unfold displayTextOf, medalOf. cbv zeta. repeat split.
  - case_decide; [|lia]. rewrite length_app, length_take.
    change (length (str "...")) with 3%nat. lia.
  - case_decide; [|done]. rewrite take_app_le by (rewrite length_take; lia).
    by rewrite take_take.
  - intros Hshort. by rewrite decide_False by lia.
  - intros Hlong. by rewrite decide_True by lia.
  - intros Hindex. by rewrite decide_False by (simpl; lia).
  - intros Hindex. rewrite decide_True by (simpl; lia).
    destruct index as [|[|[|index]]]; [| | |lia]; eexists; split; done.
Qed.

End PayloadFacts.

(** ** The manual trigger endpoint *)

Module TriggerFacts.
Import Job Trigger Vocabulary.

(** [GET /trigger] runs the job only for a caller that presents the
    configured, non-empty key: any other request (no key configured,
    an empty configured key, no key or another key in the query) is
    answered 401 and nothing is sent.  For an authorized caller the
    job runs once, and the reply is 200 when it succeeded and 500 with
    its error when it threw; the handler itself never throws. *)
Theorem trigger_authorization w keywordsData env queryKey st :
  (¬ authorized env queryKey →
   triggerHandler w keywordsData env queryKey st
   = (inr {| reply_status := 401; reply_body := Unauthorized |}, st))
  ∧ (authorized env queryKey →
     triggerHandler w keywordsData env queryKey st
     = match executeDailyJob w keywordsData env st with
       | (inr _, st') =>
           (inr {| reply_status := 200; reply_body := Completed |}, st')
       | (inl error, st') =>
           (inr {| reply_status := 500; reply_body := Failed error |}, st')
       end).
Proof.
  unfold authorized, triggerHandler, keyMissing. split.
  - intros Hno. rewrite decide_True; [done|].
    destruct (MANUAL_TRIGGER_KEY env) as [[|c key]|] eqn:Hkey; [by left; right | | by left; left].
    destruct (decide (queryKey = Some (c :: key))) as [->|Hne]; [|by right].
    exfalso. apply Hno. by exists (c :: key).
  - intros (key & Hkey & Henv & ->). rewrite decide_False.
    + unfold try_catch, mbind, M_bind.
      by destruct (executeDailyJob w keywordsData env st) as [[error|[]] st'].
    + rewrite Henv. intros [[?|?]|?]; congruence.
Qed.

End TriggerFacts.
